(** * ttt-lambda: the tic-tac-toe websocket handler of [lambda_function.py]

    A shallow embedding of [scan_conns] and [lambda_handler].

    - The DynamoDB table [connections] is the list of its rows in scan
      order, one row per key; a theorem about a table holds for every order
      in which a scan may return the rows.  The table is a keyed store and
      nothing more: [put_item] and [update_item] write under any key, the
      empty string included, and create the row when the key is new.
    - The connection type keeps the source's string encoding: ["2"] for a
      spectator, ["0;m,m,m"] and ["1;m,m"] for the players and their moves;
      [split] and [join] are Python's.
    - An exception is an explicit result; the table it leaves behind and the
      posts delivered before it are part of the run.
    - Python's [int] and the websocket transport are parameters of the
      handler: the theorems hold for whatever they do.
    - The body of an event carries a string under ["message"] or nothing. *)

From Stdlib Require Import String Ascii List ZArith Bool Lia DecimalString.
Import ListNotations.

Local Open Scope string_scope.
Local Open Scope Z_scope.

(** ** Python values and exceptions *)

Inductive exn : Type :=
| IndexError
| NameError
| ValueError
| ClientError (conn_id : string).

Inductive result (A : Type) : Type :=
| Ok (a : A)
| Raise (e : exn).

Arguments Ok {A} a.
Arguments Raise {A} e.

Definition bind {A B : Type} (r : result A) (k : A -> result B) : result B :=
  match r with
  | Ok a => k a
  | Raise e => Raise e
  end.

Notation "'do' x <- r ; k" := (bind r (fun x => k))
  (at level 10, x pattern, r at level 100, k at level 200).

Module Py.

(** [s.split(sep)] for a one-character separator. *)
Fixpoint split (sep : ascii) (s : string) : list string :=
  match s with
  | EmptyString => [EmptyString]
  | String c s' =>
      if Ascii.eqb c sep then EmptyString :: split sep s'
      else match split sep s' with
           | [] => [String c EmptyString]
           | w :: ws => String c w :: ws
           end
  end.

(** [sep.join(l)]. *)
Fixpoint join (sep : string) (l : list string) : string :=
  match l with
  | [] => ""
  | [x] => x
  | x :: xs => x ++ sep ++ join sep xs
  end.

(** Truth value of a string: non-empty. *)
Definition truthy (s : string) : bool :=
  match s with
  | EmptyString => false
  | String _ _ => true
  end.

(** [x in l] for a list of strings. *)
Definition mem (x : string) (l : list string) : bool :=
  existsb (String.eqb x) l.

(** [x in l] for a list of integers. *)
Definition memZ (x : Z) (l : list Z) : bool :=
  existsb (Z.eqb x) l.

(** [str(n)] of an integer, as an f-string formats it. *)
Definition str (n : Z) : string :=
  NilZero.string_of_int (Z.to_int n).

(** [set(l)] of integers: the elements without repetition. *)
Definition set (l : list Z) : list Z := nodup Z.eq_dec l.

(** [set(a).issubset(b)]. *)
Definition issubset (a b : list Z) : bool :=
  forallb (fun x => memZ x b) a.

End Py.

(** ** The connections table *)

Record conn : Type := mkConn {
  connectionId : string;
  connType : string
}.

Definition table : Type := list conn.

(** [put_item] and [update_item ... SET connType = :t] both write the
    whole row under its key, creating it when the key is new. *)
Fixpoint upsert (tbl : table) (key t : string) : table :=
  match tbl with
  | [] => [mkConn key t]
  | c :: rest =>
      if connectionId c =? key then mkConn key t :: rest
      else c :: upsert rest key t
  end%string.

Definition put_item (tbl : table) (item : conn) : table :=
  upsert tbl (connectionId item) (connType item).

Definition update_item (tbl : table) (key t : string) : table :=
  upsert tbl key t.

Definition delete_item (tbl : table) (key : string) : table :=
  filter (fun c => negb (connectionId c =? key)%string) tbl.

Definition scan (tbl : table) : list conn := tbl.

(** The row stored under a key, if any. *)
Definition get_item (tbl : table) (key : string) : option string :=
  option_map connType (find (fun c => connectionId c =? key)%string tbl).

(** ** [scan_conns] *)

Record players : Type := mkPlayers {
  pl_p1_id : string;
  pl_p2_id : string;
  pl_p1_moves : list string;
  pl_p2_moves : list string
}.

(** One iteration of the loop over the rows. *)
Definition scan_row (acc : players) (c : conn) : result players :=
  match connType c with
  | EmptyString => Raise IndexError
  | String t _ =>
      if Ascii.eqb t "0" then
        match nth_error (Py.split ";" (connType c)) 1 with
        | None => Raise IndexError
        | Some p1_moves_str =>
            Ok (mkPlayers (connectionId c) (pl_p2_id acc)
                  (if Py.truthy p1_moves_str then Py.split "," p1_moves_str
                   else pl_p1_moves acc)
                  (pl_p2_moves acc))
        end
      else if Ascii.eqb t "1" then
        match nth_error (Py.split ";" (connType c)) 1 with
        | None => Raise IndexError
        | Some p2_moves_str =>
            Ok (mkPlayers (pl_p1_id acc) (connectionId c)
                  (pl_p1_moves acc)
                  (if Py.truthy p2_moves_str then Py.split "," p2_moves_str
                   else pl_p2_moves acc))
        end
      else Ok acc
  end.

Fixpoint scan_loop (acc : players) (conns : list conn) : result players :=
  match conns with
  | [] => Ok acc
  | c :: rest => do acc' <- scan_row acc c; scan_loop acc' rest
  end.

Definition avail_of (p1_id p2_id : string) : list Z :=
  (if Py.truthy p1_id then [] else [0])
    ++ (if Py.truthy p2_id then [] else [1])
    ++ [2].

Definition scan_conns (conns : list conn)
  : result (list Z * string * string * list string * list string) :=
  do pl <- scan_loop (mkPlayers "" "" [] []) conns;
  Ok (avail_of (pl_p1_id pl) (pl_p2_id pl),
      pl_p1_id pl, pl_p2_id pl, pl_p1_moves pl, pl_p2_moves pl).

(** ** The snapshot sent to the clients *)

Record data : Type := mkData {
  avail : list Z;
  p1Id : string;
  p2Id : string;
  p1Moves : list string;
  p2Moves : list string;
  newMessage : option (string * string)   (* senderId, chatMessage; None is {} *)
}.

Definition set_avail (d : data) (a : list Z) : data :=
  mkData a (p1Id d) (p2Id d) (p1Moves d) (p2Moves d) (newMessage d).
Definition set_p1Id (d : data) (i : string) : data :=
  mkData (avail d) i (p2Id d) (p1Moves d) (p2Moves d) (newMessage d).
Definition set_p2Id (d : data) (i : string) : data :=
  mkData (avail d) (p1Id d) i (p1Moves d) (p2Moves d) (newMessage d).
Definition set_p1Moves (d : data) (m : list string) : data :=
  mkData (avail d) (p1Id d) (p2Id d) m (p2Moves d) (newMessage d).
Definition set_p2Moves (d : data) (m : list string) : data :=
  mkData (avail d) (p1Id d) (p2Id d) (p1Moves d) m (newMessage d).
Definition set_newMessage (d : data) (sender chat : string) : data :=
  mkData (avail d) (p1Id d) (p2Id d) (p1Moves d) (p2Moves d) (Some (sender, chat)).

(** A call [post_to_connection(ConnectionId=conn_id, Data=json.dumps(data))]
    once [data["connectionId"]] has been set to [conn_id]. *)
Record post : Type := mkPost {
  ConnectionId : string;
  Data : data
}.

(** ** Events and responses *)

Record event : Type := mkEvent {
  route_key : string;
  connection_id : string;
  message : option string          (* None: no "message" in the body *)
}.

Definition Connect (c : string) : event := mkEvent "$connect" c None.
Definition Disconnect (c : string) : event := mkEvent "$disconnect" c None.
Definition JoinGame (c : string) : event := mkEvent "joinGame" c None.
Definition MakePlay (c m : string) : event := mkEvent "makePlay" c (Some m).
Definition SendMessage (c m : string) : event := mkEvent "sendMessage" c (Some m).

Record response : Type := mkResponse {
  statusCode : Z;
  status : string;
  body : string
}.

Definition success : response :=
  mkResponse 200 "Success" "Lambda executed successfully.".
Definition ineligible : response :=
  mkResponse 200 "Failure" "User ineligible to make play.".
Definition already_made : response :=
  mkResponse 200 "Failure" "Move already made!".

(** Modelled from the spec: the constant [_WINNING_COMBOS] of the module
    [config], which is not part of the sources: the catalogue of the 8
    winning triples (3 rows, 3 columns, 2 diagonals) of the row-major
    3x3 board. *)
Definition WINNING_COMBOS : list (list Z) :=
  [ [0; 1; 2]; [3; 4; 5]; [6; 7; 8];
    [0; 3; 6]; [1; 4; 7]; [2; 5; 8];
    [0; 4; 8]; [2; 4; 6] ].

(** ** [lambda_handler] *)

(** Where the handler stands after the code of one route. *)
Inductive flow : Type :=
| Returned (tbl : table) (r : response)   (* an early [return] *)
| Continue (tbl : table) (d : data)       (* falls through to the broadcast *)
| Raised (tbl : table) (e : exn).         (* an exception leaves the handler *)

(** One invocation: the table it leaves, the posts that were delivered
    and the response or the exception. *)
Record run : Type := mkRun {
  store : table;
  posts : list post;
  outcome : result response
}.

Section Handler.

(** Python's [int] on a string; [None] is its [ValueError]. *)
Variable py_int : string -> option Z.

(** [client.post_to_connection]: delivers, or raises. *)
Variable post_to_connection : post -> result unit.

(** [[int(x) for x in check_arr]]. *)
Fixpoint ints (check_arr : list string) : result (list Z) :=
  match check_arr with
  | [] => Ok []
  | x :: xs =>
      match py_int x with
      | None => Raise ValueError
      | Some n => do ns <- ints xs; Ok (n :: ns)
      end
  end.

(** Lines 145-159: the outcome of the game, [""] while it goes on. *)
Definition decision (check_set : list Z) (d : data) : string :=
  if 3 <=? Z.of_nat (length check_set) then
    let won :=
      if existsb (fun combo => Py.issubset (Py.set combo) check_set)
           WINNING_COMBOS
      then "won" else "" in
    if negb (won =? "won")%string
       && (Z.of_nat (length (p1Moves d) + length (p2Moves d)) =? 9)
    then "tied" else won
  else "".

(** Route [joinGame]. *)
Definition join_game (tbl : table) (connection_id : string)
    (avail : list Z) (d : data) : flow :=
  if Py.memZ 0 avail || Py.memZ 1 avail then
    match avail with
    | [] => Raised tbl IndexError
    | p_id :: avail' =>
        let tbl := update_item tbl connection_id (Py.str p_id ++ ";") in
        let d := if p_id =? 0 then set_p1Id d connection_id
                 else set_p2Id d connection_id in
        Continue tbl (set_avail d avail')
    end
  else Continue tbl d.

(** Lines 132-141: the move is appended for the acting player. *)
Definition record_move (connection_id message p1_id p2_id : string) (d : data)
  : data * option string * list string :=
  let '(d, moves_str, check_arr) :=
    if (connection_id =? p1_id)%string then
      let m := (p1Moves d ++ [message])%list in
      (set_p1Moves d m, Some ("0;" ++ Py.join "," m), m)
    else (d, None, []) in
  if (connection_id =? p2_id)%string then
    let m := (p2Moves d ++ [message])%list in
    (set_p2Moves d m, Some ("1;" ++ Py.join "," m), m)
  else (d, moves_str, check_arr).

(** Lines 161-189: both players become spectators, the game is cleared. *)
Definition reset_game (tbl : table) (connection_id p1_id p2_id dec : string)
  : table * data :=
  let winner := connection_id in
  let loser := if (p1_id =? winner)%string then p2_id else p1_id in
  let tbl := update_item tbl p1_id "2" in
  let tbl := update_item tbl p2_id "2" in
  (tbl,
   mkData [0; 1; 2] "" "" [] []
     (Some ("GAME", winner ++ " has " ++ dec ++ " against " ++ loser ++ "!"))).

(** Route [makePlay]. *)
Definition make_play (tbl : table) (connection_id : string)
    (message : option string) (p1_id p2_id : string) (d : data) : flow :=
  if negb (connection_id =? p1_id)%string
     && negb (connection_id =? p2_id)%string
  then Returned tbl ineligible
  else
    match message with
    | None => Raised tbl NameError
    | Some message =>
        if Py.mem message (p1Moves d) || Py.mem message (p2Moves d)
        then Returned tbl already_made
        else
          let '(d, moves_str, check_arr) :=
            record_move connection_id message p1_id p2_id d in
          match ints check_arr with
          | Raise e => Raised tbl e
          | Ok l =>
              let check_set := Py.set l in
              let dec := decision check_set d in
              let '(tbl, d) :=
                if negb (dec =? "")%string
                then reset_game tbl connection_id p1_id p2_id dec
                else (tbl, d) in
              if (dec =? "")%string then
                match moves_str with
                | None => Raised tbl NameError
                | Some moves_str =>
                    Continue (update_item tbl connection_id moves_str) d
                end
              else Continue tbl d
          end
    end.

(** Route [sendMessage]. *)
Definition send_message (tbl : table) (connection_id : string)
    (message : option string) (d : data) : flow :=
  match message with
  | None => Raised tbl NameError
  | Some message => Continue tbl (set_newMessage d connection_id message)
  end.

(** Lines 205-210: the loop stops at the first post that raises. *)
Fixpoint broadcast (d : data) (conns : list conn) : list post * result unit :=
  match conns with
  | [] => ([], Ok tt)
  | c :: rest =>
      let p := mkPost (connectionId c) d in
      match post_to_connection p with
      | Raise e => ([], Raise e)
      | Ok _ => let '(ps, r) := broadcast d rest in (p :: ps, r)
      end
  end.

(** The route taken after the scan. *)
Definition route (tbl : table) (ev : event) (avail : list Z)
    (p1_id p2_id : string) (d : data) : flow :=
  if (route_key ev =? "joinGame")%string then
    join_game tbl (connection_id ev) avail d
  else if (route_key ev =? "makePlay")%string then
    make_play tbl (connection_id ev) (message ev) p1_id p2_id d
  else if (route_key ev =? "sendMessage")%string then
    send_message tbl (connection_id ev) (message ev) d
  else Continue tbl d.

(** The end of the handler: an early return or an exception leaves at
    once, otherwise the snapshot is broadcast and the handler succeeds. *)
Definition finish (conns : list conn) (f : flow) : run :=
  match f with
  | Returned tbl r => mkRun tbl [] (Ok r)
  | Raised tbl e => mkRun tbl [] (Raise e)
  | Continue tbl d =>
      let '(ps, r) := broadcast d conns in
      mkRun tbl ps (do _ <- r; Ok success)
  end.

Definition lambda_handler (tbl : table) (ev : event) : run :=
  if (route_key ev =? "$connect")%string then
    mkRun (put_item tbl (mkConn (connection_id ev) "2")) [] (Ok success)
  else
    let tbl :=
      if (route_key ev =? "$disconnect")%string
      then delete_item tbl (connection_id ev) else tbl in
    let conns := scan tbl in
    match scan_conns conns with
    | Raise e => mkRun tbl [] (Raise e)
    | Ok (avail, p1_id, p2_id, p1_moves, p2_moves) =>
        let d := mkData avail p1_id p2_id p1_moves p2_moves None in
        finish conns (route tbl ev avail p1_id p2_id d)
    end.

(** The table after a sequence of events, handled one after the other. *)
Fixpoint run_events (tbl : table) (evs : list event) : table :=
  match evs with
  | [] => tbl
  | ev :: rest => run_events (store (lambda_handler tbl ev)) rest
  end.

End Handler.

(** ** Concrete collaborators for the examples *)

Definition digit_value (c : ascii) : option Z :=
  let n := Z.of_nat (nat_of_ascii c) in
  if (48 <=? n) && (n <=? 57) then Some (n - 48) else None.

Fixpoint digits_value (acc : Z) (s : string) : option Z :=
  match s with
  | EmptyString => Some acc
  | String c s' =>
      match digit_value c with
      | None => None
      | Some v => digits_value (10 * acc + v) s'
      end
  end.

(** [int] on the strings of decimal digits, all that the examples use. *)
Definition int_of_digits (s : string) : option Z :=
  match s with
  | EmptyString => None
  | _ => digits_value 0 s
  end.

(** A transport on which every post is delivered. *)
Definition delivers : post -> result unit := fun _ => Ok tt.

(** A transport on which the posts to one connection raise. *)
Definition gone (dead : string) : post -> result unit :=
  fun p => if (ConnectionId p =? dead)%string then Raise (ClientError dead)
           else Ok tt.

Definition handle := lambda_handler int_of_digits delivers.
Definition handle_all := run_events int_of_digits delivers.

(** A and B play; A holds cells 0 and 1, B holds 3 and 4. *)
Definition mid_game : table := [mkConn "A" "0;0,1"; mkConn "B" "1;3,4"].

(** One cell left, no line completed by either player. *)
Definition last_cell : table :=
  [mkConn "A" "0;0,1,5,6"; mkConn "B" "1;2,3,4,7"].

(** A has just played cell 0, B has not played since. *)
Definition after_a_move : table :=
  store (handle [mkConn "A" "0;"; mkConn "B" "1;"] (MakePlay "A" "0")).

(** Two connections that have not joined. *)
Definition lobby : table := [mkConn "A" "2"; mkConn "B" "2"].

(** A is player one and has played; nobody is player two. *)
Definition lone_player : table := [mkConn "A" "0;0,1"; mkConn "B" "2"].

(** A and B connect and join, C joins in vain; A leaves and C takes
    player one; A comes back, joins in vain, and takes player two once B
    has left; B comes back as a spectator. *)
Definition three_joins : list event :=
  [Connect "A"; Connect "B"; JoinGame "A"; JoinGame "B"; Connect "C";
   JoinGame "C"; Disconnect "A"; JoinGame "C"; Connect "A"; JoinGame "A";
   Disconnect "B"; JoinGame "A"; Connect "B"].




(** A holds the cells 0, 1 and 5, B holds 3 and 4. *)
Definition a_holds_five : table :=
  [mkConn "A" "0;0,1,5"; mkConn "B" "1;3,4"].

(** The first eight events of a game: A and B connect and join, and
    play two cells each. *)
Definition opening : list event :=
  [Connect "A"; Connect "B"; JoinGame "A"; JoinGame "B";
   MakePlay "A" "0"; MakePlay "B" "3"; MakePlay "A" "1"; MakePlay "B" "4"].

(** The game of A and B, watched by C. *)
Definition watched_game : table :=
  [mkConn "A" "0;0,1"; mkConn "B" "1;3,4"; mkConn "C" "2"].

(** A table with a record the scan cannot read: a player's without
    [";"]. *)
Definition torn_table : table := [mkConn "A" "0"; mkConn "B" "2"].

(** ** Roles and the registry invariant *)

Inductive role : Type := PlayerOne | PlayerTwo | Spectator.

(** The role a connection type encodes: its first character. *)
Definition role_of (t : string) : option role :=
  match t with
  | EmptyString => None
  | String c _ =>
      if Ascii.eqb c "0" then Some PlayerOne
      else if Ascii.eqb c "1" then Some PlayerTwo
      else if Ascii.eqb c "2" then Some Spectator
      else None
  end.

(** Connection [c] holds role [r] in the table. *)
Definition holds (tbl : table) (c : string) (r : role) : Prop :=
  exists row, In row tbl /\ connectionId row = c
              /\ role_of (connType row) = Some r.

(** Role [r] is held by some connection. *)
Definition occupied (tbl : table) (r : role) : Prop :=
  exists c, holds tbl c r.

(** Role [r] is held by at most one connection. *)
Definition at_most_one (tbl : table) (r : role) : Prop :=
  forall c1 c2, holds tbl c1 r -> holds tbl c2 r -> c1 = c2.

(** Every connection of the registry holds exactly one role. *)
Definition one_role_each (tbl : table) : Prop :=
  forall row, In row tbl ->
    exists r, holds tbl (connectionId row) r
              /\ forall r', holds tbl (connectionId row) r' -> r' = r.

(** A row that [scan_conns] reads without raising. *)
Definition row_ok (c : conn) : bool :=
  match scan_row (mkPlayers "" "" [] []) c with
  | Ok _ => true
  | Raise _ => false
  end.

(** The rows the handler itself writes: a role tag, and for a player a
    [";"] after it; a player row is keyed by a real connection id. *)
Definition row_wf (c : conn) : Prop :=
  row_ok c = true
  /\ role_of (connType c) <> None
  /\ (role_of (connType c) <> Some Spectator -> connectionId c <> "").

Definition registry_inv (tbl : table) : Prop :=
  NoDup (map connectionId tbl)
  /\ (forall row, In row tbl -> row_wf row)
  /\ at_most_one tbl PlayerOne
  /\ at_most_one tbl PlayerTwo.

(** Every player row is keyed by a non-empty connection id, as the ids
    handed out to websocket clients are; the empty id stands for "no player". *)
Definition players_named (tbl : table) : bool :=
  forallb (fun row =>
             match role_of (connType row) with
             | Some PlayerOne | Some PlayerTwo => Py.truthy (connectionId row)
             | _ => true
             end) tbl.





(** ** Strings the scan can and cannot read *)

(** The character [c] does not occur in [s]. *)
Fixpoint no_char (c : ascii) (s : string) : bool :=
  match s with
  | EmptyString => true
  | String a s' => negb (Ascii.eqb a c) && no_char c s'
  end.

(** A row on which [scan_conns] raises: an empty connection type, or a
    player's without the [";"] that precedes the moves. *)
Definition unreadable (c : conn) : bool :=
  match connType c with
  | EmptyString => true
  | String t _ =>
      (Ascii.eqb t "0" || Ascii.eqb t "1") && no_char ";" (connType c)
  end.

(** A move that survives being written and read back: not empty, and free
    of the two separators. *)
Definition clean (m : string) : bool :=
  Py.truthy m && no_char "," m && no_char ";" m.

(** ** The game the table holds *)

(** The moves [m1] of player one and [m2] of player two as the table
    holds them: no move twice, within or across the two sequences, every
    move clean and read by [int], and every record of a player made of its
    role tag and its moves. *)
Definition moves_ok (py_int : string -> option Z) (tbl : table)
    (m1 m2 : list string) : Prop :=
  NoDup (m1 ++ m2)
  /\ Forall (fun m => clean m = true /\ py_int m <> None) (m1 ++ m2)
  /\ (forall row, In row tbl ->
        role_of (connType row) = Some PlayerOne ->
        connType row = "0;" ++ Py.join "," m1)
  /\ (forall row, In row tbl ->
        role_of (connType row) = Some PlayerTwo ->
        connType row = "1;" ++ Py.join "," m2).

Definition game_inv (py_int : string -> option Z) (tbl : table) : Prop :=
  registry_inv tbl /\ exists m1 m2, moves_ok py_int tbl m1 m2.

(** ** The table: what a key holds after a write *)

Module Table.

Lemma get_item_upsert (tbl : table) (k t k' : string) :
  get_item (upsert tbl k t) k'
  = if (k' =? k)%string then Some t else get_item tbl k'.
Proof.
  unfold get_item.
  induction tbl as [|c rest IH]; simpl.
  - rewrite String.eqb_sym. destruct (k' =? k)%string; reflexivity.
  - destruct (connectionId c =? k)%string eqn:Ek; simpl.
    + apply String.eqb_eq in Ek. subst k.
      rewrite (String.eqb_sym (connectionId c) k').
      destruct (k' =? connectionId c)%string; reflexivity.
    + destruct (connectionId c =? k')%string eqn:Ek'; simpl.
      * apply String.eqb_eq in Ek'. subst k'. now rewrite Ek.
      * exact IH.
Qed.

Lemma get_item_same (tbl : table) (k t : string) :
  get_item (upsert tbl k t) k = Some t.
Proof. rewrite get_item_upsert. now rewrite String.eqb_refl. Qed.

Lemma in_upsert (tbl : table) (k t : string) (row : conn) :
  In row (upsert tbl k t) -> row = mkConn k t \/ In row tbl.
Proof.
  induction tbl as [|c rest IH]; simpl.
  - intros [H|[]]; auto.
  - destruct (connectionId c =? k)%string; simpl; intros [H|H]; auto.
    destruct (IH H); auto.
Qed.

Lemma keys_upsert (tbl : table) (k t : string) :
  map connectionId (upsert tbl k t) = map connectionId tbl
  \/ (~ In k (map connectionId tbl)
      /\ map connectionId (upsert tbl k t) = (map connectionId tbl ++ [k])%list).
Proof.
  induction tbl as [|c rest IH]; simpl.
  - right. split; [tauto | reflexivity].
  - destruct (connectionId c =? k)%string eqn:Ek; simpl.
    + apply String.eqb_eq in Ek. left. now rewrite Ek.
    + apply String.eqb_neq in Ek.
      destruct IH as [IH|[Hn IH]]; [left | right]; rewrite IH; auto.
      split; [tauto | reflexivity].
Qed.

Lemma nodup_upsert (tbl : table) (k t : string) :
  NoDup (map connectionId tbl) -> NoDup (map connectionId (upsert tbl k t)).
Proof.
  intros H. destruct (keys_upsert tbl k t) as [E|[Hn E]]; rewrite E; auto.
  apply NoDup_app; auto.
  - constructor; [tauto | constructor].
  - intros x Hx [Hk|[]]. subst x. tauto.
Qed.

(** With distinct keys, the old row of the written key is gone. *)
Lemma in_upsert_nodup (tbl : table) (k t : string) (row : conn) :
  NoDup (map connectionId tbl) ->
  In row (upsert tbl k t) ->
  row = mkConn k t \/ (In row tbl /\ connectionId row <> k).
Proof.
  induction tbl as [|c rest IH]; simpl.
  - intros _ [H|[]]; auto.
  - intros Hnd. inversion Hnd as [|x xs Hx Hxs]; subst.
    destruct (connectionId c =? k)%string eqn:Ek; simpl.
    + apply String.eqb_eq in Ek. intros [H|H]; auto.
      right. split; auto. intros E. apply Hx. rewrite Ek, <- E.
      now apply in_map.
    + apply String.eqb_neq in Ek. intros [H|H].
      * subst row. auto.
      * destruct (IH Hxs H) as [E|[Hin Hk]]; auto.
Qed.

Lemma in_delete (tbl : table) (k : string) (row : conn) :
  In row (delete_item tbl k) <-> In row tbl /\ connectionId row <> k.
Proof.
  unfold delete_item. rewrite filter_In, negb_true_iff, String.eqb_neq.
  tauto.
Qed.

Lemma nodup_delete (tbl : table) (k : string) :
  NoDup (map connectionId tbl) -> NoDup (map connectionId (delete_item tbl k)).
Proof.
  induction tbl as [|c rest IH]; simpl; auto.
  intros Hnd. inversion Hnd as [|x xs Hx Hxs]; subst.
  destruct (negb (connectionId c =? k)%string); simpl; auto.
  constructor; auto.
  intros Hin. apply Hx. apply in_map_iff in Hin.
  destruct Hin as [row [E Hrow]]. apply in_delete in Hrow.
  apply in_map_iff. exists row. tauto.
Qed.

(** A written table splits around the written row. *)
Lemma upsert_split (tbl : table) (k t : string) :
  exists l1 l2,
    upsert tbl k t = (l1 ++ mkConn k t :: l2)%list
    /\ forall row, In row (l1 ++ l2)%list -> In row (upsert tbl k t)
                   /\ In row tbl.
Proof.
  induction tbl as [|c rest IH]; simpl.
  - exists [], []. split; [reflexivity | intros row []].
  - destruct (connectionId c =? k)%string eqn:Ek.
    + exists [], rest. split; [reflexivity|].
      simpl. intros row H. auto.
    + destruct IH as [l1 [l2 [E H]]].
      exists (c :: l1), l2. rewrite E. split; [reflexivity|].
      simpl. intros row [Hc|Hr].
      * subst row. auto.
      * rewrite <- E. destruct (H row Hr). auto.
Qed.

Lemma upsert_split_nodup (tbl : table) (k t : string) :
  NoDup (map connectionId tbl) ->
  exists l1 l2,
    upsert tbl k t = (l1 ++ mkConn k t :: l2)%list
    /\ forall row, In row (l1 ++ l2)%list ->
                   In row tbl /\ connectionId row <> k.
Proof.
  induction tbl as [|c rest IH]; simpl; intros Hnd.
  - exists [], []. split; [reflexivity | intros row []].
  - inversion Hnd as [|x xs Hx Hxs]; subst.
    destruct (connectionId c =? k)%string eqn:Ek.
    + apply String.eqb_eq in Ek.
      exists [], rest. split; [reflexivity|].
      simpl. intros row H. split; auto.
      intros E. apply Hx. rewrite Ek, <- E. now apply in_map.
    + apply String.eqb_neq in Ek.
      destruct (IH Hxs) as [l1 [l2 [E H]]].
      exists (c :: l1), l2. rewrite E. split; [reflexivity|].
      simpl. intros row [Hc|Hr].
      * subst row. auto.
      * destruct (H row Hr). auto.
Qed.

End Table.

(** ** [scan_conns]: who the players are *)

Module Scan.

Lemma role_p1 (t : string) :
  role_of t = Some PlayerOne <-> exists s, t = String "0" s.
Proof.
  destruct t as [|c s]; simpl.
  - split; [discriminate | intros [s H]; discriminate].
  - destruct (Ascii.eqb c "0") eqn:E0.
    + apply Ascii.eqb_eq in E0. subst c. split; eauto.
    + split.
      * destruct (Ascii.eqb c "1"); [discriminate|].
        destruct (Ascii.eqb c "2"); discriminate.
      * intros [s' H]. inversion H. subst c. discriminate.
Qed.

Lemma role_p2 (t : string) :
  role_of t = Some PlayerTwo <-> exists s, t = String "1" s.
Proof.
  destruct t as [|c s]; simpl.
  - split; [discriminate | intros [s H]; discriminate].
  - destruct (Ascii.eqb c "0") eqn:E0.
    + apply Ascii.eqb_eq in E0. subst c.
      split; [discriminate | intros [s' H]; discriminate].
    + destruct (Ascii.eqb c "1") eqn:E1.
      * apply Ascii.eqb_eq in E1. subst c. split; eauto.
      * split.
        -- destruct (Ascii.eqb c "2"); discriminate.
        -- intros [s' H]. inversion H. subst c. discriminate.
Qed.

(** A row of player one sets the id, and the moves when it has some. *)
Lemma scan_row_p1 (acc pl : players) (c : conn) :
  role_of (connType c) = Some PlayerOne ->
  scan_row acc c = Ok pl ->
  pl_p1_id pl = connectionId c
  /\ pl_p2_id pl = pl_p2_id acc /\ pl_p2_moves pl = pl_p2_moves acc.
Proof.
  intros Hr. apply role_p1 in Hr. destruct Hr as [s Hs].
  unfold scan_row. rewrite Hs. cbn [Ascii.eqb Bool.eqb andb].
  destruct (nth_error _ 1); [|discriminate].
  intros H. inversion H. subst pl. simpl. auto.
Qed.

Lemma scan_row_p2 (acc pl : players) (c : conn) :
  role_of (connType c) = Some PlayerTwo ->
  scan_row acc c = Ok pl ->
  pl_p2_id pl = connectionId c
  /\ pl_p1_id pl = pl_p1_id acc /\ pl_p1_moves pl = pl_p1_moves acc.
Proof.
  intros Hr. apply role_p2 in Hr. destruct Hr as [s Hs].
  unfold scan_row. rewrite Hs. cbn [Ascii.eqb Bool.eqb andb].
  destruct (nth_error _ 1); [|discriminate].
  intros H. inversion H. subst pl. simpl. auto.
Qed.

(** Any other row leaves the accumulators alone. *)
Lemma scan_row_other (acc pl : players) (c : conn) :
  role_of (connType c) <> Some PlayerOne ->
  role_of (connType c) <> Some PlayerTwo ->
  scan_row acc c = Ok pl -> pl = acc.
Proof.
  unfold scan_row, role_of. destruct (connType c) as [|t s]; [discriminate|].
  destruct (Ascii.eqb t "0"); [congruence|].
  destruct (Ascii.eqb t "1"); [congruence|].
  intros _ _ H. now inversion H.
Qed.

Lemma scan_row_not_p1 (acc pl : players) (c : conn) :
  role_of (connType c) <> Some PlayerOne ->
  scan_row acc c = Ok pl ->
  pl_p1_id pl = pl_p1_id acc /\ pl_p1_moves pl = pl_p1_moves acc.
Proof.
  intros Hn H.
  destruct (role_of (connType c)) as [[| |]|] eqn:Er; try congruence.
  - apply (scan_row_p2 acc pl c Er) in H. tauto.
  - apply scan_row_other in H; try congruence. subst. auto.
  - apply scan_row_other in H; try congruence. subst. auto.
Qed.

Lemma scan_row_not_p2 (acc pl : players) (c : conn) :
  role_of (connType c) <> Some PlayerTwo ->
  scan_row acc c = Ok pl ->
  pl_p2_id pl = pl_p2_id acc /\ pl_p2_moves pl = pl_p2_moves acc.
Proof.
  intros Hn H.
  destruct (role_of (connType c)) as [[| |]|] eqn:Er; try congruence.
  - apply (scan_row_p1 acc pl c Er) in H. tauto.
  - apply scan_row_other in H; try congruence. subst. auto.
  - apply scan_row_other in H; try congruence. subst. auto.
Qed.

(** Whether a row raises does not depend on the accumulators. *)
Lemma scan_row_ok (acc : players) (c : conn) :
  row_ok c = true <-> exists pl, scan_row acc c = Ok pl.
Proof.
  unfold row_ok, scan_row. destruct (connType c) as [|t s].
  - split; [discriminate | intros [pl H]; discriminate].
  - destruct (Ascii.eqb t "0").
    + destruct (nth_error _ 1); split; eauto; try discriminate.
      intros [pl H]; discriminate.
    + destruct (Ascii.eqb t "1").
      * destruct (nth_error _ 1); split; eauto; try discriminate.
        intros [pl H]; discriminate.
      * split; eauto.
Qed.

Lemma scan_loop_app (acc : players) (l1 l2 : list conn) :
  scan_loop acc (l1 ++ l2)
  = do acc' <- scan_loop acc l1; scan_loop acc' l2.
Proof.
  revert acc. induction l1 as [|c l1 IH]; intros acc; simpl; auto.
  destruct (scan_row acc c); simpl; auto.
Qed.

Lemma scan_loop_ok (acc : players) (l : list conn) :
  (forall row, In row l -> row_ok row = true) <->
  exists pl, scan_loop acc l = Ok pl.
Proof.
  revert acc. induction l as [|c l IH]; intros acc; simpl.
  - split; [eauto | intros _ row []].
  - split.
    + intros H.
      destruct (proj1 (scan_row_ok acc c) (H c (or_introl eq_refl))) as [a Ha].
      rewrite Ha. simpl. apply IH. auto.
    + intros [pl H] row [Hc|Hr].
      * subst row. apply (scan_row_ok acc).
        destruct (scan_row acc c); [eauto | discriminate].
      * destruct (scan_row acc c) as [a|e] eqn:Ea; [|discriminate].
        simpl in H. apply (IH a); eauto.
Qed.

(** Player one after the loop: untouched when no row is player one's,
    else the id of such a row. *)
Lemma scan_loop_p1 (acc pl : players) (l : list conn) :
  scan_loop acc l = Ok pl ->
  (pl_p1_id pl = pl_p1_id acc /\ pl_p1_moves pl = pl_p1_moves acc
   /\ forall row, In row l -> role_of (connType row) <> Some PlayerOne)
  \/ exists row, In row l /\ role_of (connType row) = Some PlayerOne
                 /\ connectionId row = pl_p1_id pl.
Proof.
  revert acc. induction l as [|c l IH]; intros acc; simpl.
  - intros H. inversion H. left. repeat split; auto.
  - destruct (scan_row acc c) as [a|e] eqn:Ea; [|discriminate]. simpl.
    intros H. destruct (IH a H) as [[Hi [Hm Hn]]|[row [Hin [Hr Hid]]]].
    + destruct (role_of (connType c)) as [[| |]|] eqn:Er.
      * right. exists c. destruct (scan_row_p1 acc a c Er Ea) as [E _].
        repeat split; auto; congruence.
      * left. destruct (scan_row_not_p1 acc a c) as [E1 E2]; auto;
          try congruence.
        repeat split; try congruence.
        intros row [Hc|Hl]; [subst; congruence | auto].
      * left. destruct (scan_row_not_p1 acc a c) as [E1 E2]; auto;
          try congruence.
        repeat split; try congruence.
        intros row [Hc|Hl]; [subst; congruence | auto].
      * left. destruct (scan_row_not_p1 acc a c) as [E1 E2]; auto;
          try congruence.
        repeat split; try congruence.
        intros row [Hc|Hl]; [subst; congruence | auto].
    + right. exists row. auto.
Qed.

Lemma scan_loop_p2 (acc pl : players) (l : list conn) :
  scan_loop acc l = Ok pl ->
  (pl_p2_id pl = pl_p2_id acc /\ pl_p2_moves pl = pl_p2_moves acc
   /\ forall row, In row l -> role_of (connType row) <> Some PlayerTwo)
  \/ exists row, In row l /\ role_of (connType row) = Some PlayerTwo
                 /\ connectionId row = pl_p2_id pl.
Proof.
  revert acc. induction l as [|c l IH]; intros acc; simpl.
  - intros H. inversion H. left. repeat split; auto.
  - destruct (scan_row acc c) as [a|e] eqn:Ea; [|discriminate]. simpl.
    intros H. destruct (IH a H) as [[Hi [Hm Hn]]|[row [Hin [Hr Hid]]]].
    + destruct (role_of (connType c)) as [[| |]|] eqn:Er.
      * left. destruct (scan_row_not_p2 acc a c) as [E1 E2]; auto;
          try congruence.
        repeat split; try congruence.
        intros row [Hc|Hl]; [subst; congruence | auto].
      * right. exists c. destruct (scan_row_p2 acc a c Er Ea) as [E _].
        repeat split; auto; congruence.
      * left. destruct (scan_row_not_p2 acc a c) as [E1 E2]; auto;
          try congruence.
        repeat split; try congruence.
        intros row [Hc|Hl]; [subst; congruence | auto].
      * left. destruct (scan_row_not_p2 acc a c) as [E1 E2]; auto;
          try congruence.
        repeat split; try congruence.
        intros row [Hc|Hl]; [subst; congruence | auto].
    + right. exists row. auto.
Qed.

(** Rows of neither player leave the loop's accumulators alone. *)
Lemma scan_loop_spectators (acc : players) (l : list conn) :
  (forall row, In row l -> row_ok row = true
     /\ role_of (connType row) <> Some PlayerOne
     /\ role_of (connType row) <> Some PlayerTwo) ->
  scan_loop acc l = Ok acc.
Proof.
  induction l as [|c l IH]; simpl; auto.
  intros H. destruct (H c (or_introl eq_refl)) as [Hok [H1 H2]].
  destruct (proj1 (scan_row_ok acc c) Hok) as [a Ha].
  rewrite Ha. simpl. rewrite (scan_row_other acc a c H1 H2 Ha). auto.
Qed.

End Scan.

(** ** One invocation, route by route *)

Section Routes.

Variable py_int : string -> option Z.
Variable post_to_connection : post -> result unit.

Local Abbreviation handler := (lambda_handler py_int post_to_connection).
Local Abbreviation finish' := (finish post_to_connection).

Lemma handler_join (tbl : table) (cid : string) av p1 p2 m1 m2 :
  scan_conns (scan tbl) = Ok (av, p1, p2, m1, m2) ->
  handler tbl (JoinGame cid)
  = finish' (scan tbl) (join_game tbl cid av (mkData av p1 p2 m1 m2 None)).
Proof.
  intros H. unfold lambda_handler, route, JoinGame.
  cbn [route_key connection_id message].
  change ("joinGame" =? "$connect")%string with false.
  change ("joinGame" =? "$disconnect")%string with false.
  change ("joinGame" =? "joinGame")%string with true.
  cbv iota. rewrite H. reflexivity.
Qed.

Lemma handler_play (tbl : table) (cid msg : string) av p1 p2 m1 m2 :
  scan_conns (scan tbl) = Ok (av, p1, p2, m1, m2) ->
  handler tbl (MakePlay cid msg)
  = finish' (scan tbl)
      (make_play py_int tbl cid (Some msg) p1 p2 (mkData av p1 p2 m1 m2 None)).
Proof.
  intros H. unfold lambda_handler, route, MakePlay.
  cbn [route_key connection_id message].
  change ("makePlay" =? "$connect")%string with false.
  change ("makePlay" =? "$disconnect")%string with false.
  change ("makePlay" =? "joinGame")%string with false.
  change ("makePlay" =? "makePlay")%string with true.
  cbv iota. rewrite H. reflexivity.
Qed.

Lemma store_finish (conns : list conn) (f : flow) :
  store (finish' conns f)
  = match f with
    | Returned t _ | Continue t _ | Raised t _ => t
    end.
Proof.
  destruct f; simpl; auto.
  destruct (broadcast post_to_connection d conns); reflexivity.
Qed.

(** The posts that were delivered all carry the snapshot. *)
Lemma broadcast_data (d : data) (conns : list conn) (p : post) :
  In p (fst (broadcast post_to_connection d conns)) -> Data p = d.
Proof.
  induction conns as [|c rest IH]; simpl; [tauto|].
  destruct (post_to_connection (mkPost (connectionId c) d)); simpl; [|tauto].
  destruct (broadcast post_to_connection d rest) as [ps r]. simpl in *.
  intros [H|H]; [subst p; reflexivity | auto].
Qed.

(** When every post is delivered, every connection gets the snapshot. *)
Lemma broadcast_all (d : data) (conns : list conn) :
  (forall c, In c conns ->
     post_to_connection (mkPost (connectionId c) d) = Ok tt) ->
  broadcast post_to_connection d conns
  = (map (fun c => mkPost (connectionId c) d) conns, Ok tt).
Proof.
  induction conns as [|c rest IH]; simpl; intros H; auto.
  rewrite (H c (or_introl eq_refl)). rewrite IH; auto.
Qed.

Lemma posts_finish_continue (conns : list conn) (t : table) (d : data) :
  posts (finish' conns (Continue t d))
  = fst (broadcast post_to_connection d conns).
Proof.
  simpl. destruct (broadcast post_to_connection d conns); reflexivity.
Qed.

(** The accepted move: the game goes on and the move is written, or the
    game is reset. *)
Lemma make_play_accepted (tbl : table) (cid msg p1 p2 : string) (d d' : data)
    (s : string) (arr : list string) (l : list Z) :
  cid = p1 \/ cid = p2 ->
  Py.mem msg (p1Moves d) = false ->
  Py.mem msg (p2Moves d) = false ->
  record_move cid msg p1 p2 d = (d', Some s, arr) ->
  ints py_int arr = Ok l ->
  make_play py_int tbl cid (Some msg) p1 p2 d
  = let dec := decision (Py.set l) d' in
    if (dec =? "")%string then Continue (update_item tbl cid s) d'
    else let '(t, fresh) := reset_game tbl cid p1 p2 dec in Continue t fresh.
Proof.
  intros He H1 H2 Hr Hi. unfold make_play.
  assert (E : negb (cid =? p1)%string && negb (cid =? p2)%string = false).
  { destruct He; subst; rewrite String.eqb_refl; simpl; auto.
    apply andb_false_r. }
  rewrite E, H1, H2, Hr, Hi. cbv zeta. simpl orb. cbv iota.
  destruct (decision (Py.set l) d' =? "")%string; reflexivity.
Qed.

Lemma mem_In (x : string) (l : list string) :
  Py.mem x l = true <-> In x l.
Proof.
  unfold Py.mem. rewrite existsb_exists. split.
  - intros [y [Hy E]]. apply String.eqb_eq in E. now subst.
  - intros H. exists x. split; auto. apply String.eqb_refl.
Qed.

(** The two early returns of [makePlay], and nothing else returns early. *)
Lemma make_play_returned (tbl t : table) (cid msg p1 p2 : string) (d : data)
    (r : response) :
  make_play py_int tbl cid (Some msg) p1 p2 d = Returned t r ->
  t = tbl
  /\ ((r = ineligible /\ cid <> p1 /\ cid <> p2)
      \/ (r = already_made /\ (cid = p1 \/ cid = p2)
          /\ (In msg (p1Moves d) \/ In msg (p2Moves d)))).
Proof.
  unfold make_play.
  destruct (String.eqb_spec cid p1) as [E1|E1];
    destruct (String.eqb_spec cid p2) as [E2|E2]; simpl negb; cbv iota.
  4: { simpl. intros H. inversion H. auto. }
  all: destruct (Py.mem msg (p1Moves d)) eqn:M1;
    [ apply mem_In in M1; simpl; intros H; inversion H; auto 10 |];
    destruct (Py.mem msg (p2Moves d)) eqn:M2;
    [ apply mem_In in M2; simpl; intros H; inversion H; auto 10 |];
    simpl;
    destruct (record_move cid msg p1 p2 d) as [[d' ms] arr];
    destruct (ints py_int arr); [|discriminate];
    destruct (decision (Py.set a) d' =? "")%string; simpl;
    [ destruct ms; discriminate |];
    destruct (reset_game tbl cid p1 p2 (decision (Py.set a) d'));
    discriminate.
Qed.

Lemma make_play_ineligible (tbl : table) (cid : string) (m : option string)
    (p1 p2 : string) (d : data) :
  cid <> p1 -> cid <> p2 ->
  make_play py_int tbl cid m p1 p2 d = Returned tbl ineligible.
Proof.
  intros H1 H2. unfold make_play.
  apply String.eqb_neq in H1, H2. now rewrite H1, H2.
Qed.

Lemma make_play_duplicate (tbl : table) (cid msg p1 p2 : string) (d : data) :
  cid = p1 \/ cid = p2 ->
  In msg (p1Moves d) \/ In msg (p2Moves d) ->
  make_play py_int tbl cid (Some msg) p1 p2 d = Returned tbl already_made.
Proof.
  intros He Hd. unfold make_play.
  assert (E : negb (cid =? p1)%string && negb (cid =? p2)%string = false).
  { destruct He; subst; rewrite String.eqb_refl; simpl; auto.
    apply andb_false_r. }
  rewrite E.
  assert (M : Py.mem msg (p1Moves d) || Py.mem msg (p2Moves d) = true).
  { apply orb_true_iff. now rewrite !mem_In. }
  now rewrite M.
Qed.

(** A response of the handler is the success response unless the route
    returned early. *)
Lemma outcome_finish (conns : list conn) (f : flow) (r : response) :
  outcome (finish' conns f) = Ok r ->
  r = success \/ exists t, f = Returned t r.
Proof.
  destruct f as [t r0|t d|t e]; simpl.
  - intros H. inversion H. eauto.
  - destruct (broadcast post_to_connection d conns) as [ps [u|e]]; simpl;
      intros H; inversion H. auto.
  - discriminate.
Qed.

End Routes.

(** ** The outcome of a move *)

Module Outcome.












(** The decision is one of the three strings. *)
Lemma decision_values (cs : list Z) (d : data) :
  decision cs d = "won" \/ decision cs d = "tied" \/ decision cs d = "".
Proof.
  unfold decision. destruct (3 <=? _); auto.
  destruct (existsb _ _); simpl; auto.
  destruct (_ =? 9); auto.
Qed.




End Outcome.

(** ** One move *)

Section Moves.

Variable py_int : string -> option Z.
Variable post_to_connection : post -> result unit.

Local Abbreviation handler := (lambda_handler py_int post_to_connection).
Local Abbreviation finish' := (finish post_to_connection).


(** Moves that are distinct strings are distinct positions when [int]
    tells them apart, as it does for positions written in one way. *)
Lemma ints_nodup (arr : list string) (l : list Z) :
  NoDup arr ->
  (forall x y, In x arr -> In y arr -> py_int x = py_int y -> x = y) ->
  ints py_int arr = Ok l ->
  NoDup l.
Proof.
  revert l. induction arr as [|x xs IH]; simpl; intros l Hn Hinj H.
  - inversion H. constructor.
  - destruct (py_int x) as [n|] eqn:Ex; [|discriminate].
    destruct (ints py_int xs) as [ns|e] eqn:Exs; [|discriminate].
    inversion H. subst l. inversion Hn as [|y ys Hy Hys]; subst.
    constructor; [|apply IH; auto].
    intros Hin. apply Hy.
    assert (M : forall zs ms, ints py_int zs = Ok ms -> In n ms ->
                exists z, In z zs /\ py_int z = Some n).
    { clear. induction zs as [|z zs IHz]; simpl; intros ms Hz Hm.
      - inversion Hz. subst. destruct Hm.
      - destruct (py_int z) as [k|] eqn:Ez; [|discriminate].
        destruct (ints py_int zs) as [ks|e]; [|discriminate].
        inversion Hz. subst ms. destruct Hm as [Hm|Hm].
        + subst k. eauto.
        + destruct (IHz ks eq_refl Hm) as [w [Hw Ew]]. eauto. }
    destruct (M xs ns Exs Hin) as [z [Hz Ez]].
    rewrite (Hinj x z); auto. congruence.
Qed.

(** The moves checked for a win are those of the acting player, the new
    one last. *)
Lemma record_move_arr (cid msg p1 p2 : string) (d d' : data)
    (ms : option string) (arr : list string) :
  cid = p1 \/ cid = p2 ->
  record_move cid msg p1 p2 d = (d', ms, arr) ->
  arr = ((if (cid =? p2)%string then p2Moves d else p1Moves d) ++ [msg])%list.
Proof.
  intros He. unfold record_move.
  destruct (String.eqb_spec cid p1); destruct (String.eqb_spec cid p2);
    simpl; intros H; inversion H; try reflexivity. tauto.
Qed.



(** The two refusals of [makePlay], as the code decides them, on the
    message as a string: "User ineligible to make play." exactly when the
    connection is neither player one nor player two, and "Move already
    made!" exactly when it is one of them and the message is, letter by
    letter, among the recorded moves of either player; either answer leaves
    the table as it was and posts nothing. *)
Lemma play_rejections_by_string (tbl : table) (cid msg : string)
    (av : list Z) (p1 p2 : string) (m1 m2 : list string) :
  scan_conns (scan tbl) = Ok (av, p1, p2, m1, m2) ->
  let r := handler tbl (MakePlay cid msg) in
  (outcome r = Ok ineligible <-> cid <> p1 /\ cid <> p2)
  /\ (outcome r = Ok already_made <->
      (cid = p1 \/ cid = p2) /\ (In msg m1 \/ In msg m2))
  /\ (outcome r = Ok ineligible \/ outcome r = Ok already_made ->
      store r = tbl /\ posts r = []).
Proof.
  intros Hs r. subst r. rewrite (handler_play _ _ _ _ _ _ _ _ _ _ Hs).
  set (d := mkData av p1 p2 m1 m2 None).
  assert (R : forall resp, resp <> success ->
            outcome (finish' (scan tbl)
                       (make_play py_int tbl cid (Some msg) p1 p2 d)) = Ok resp ->
            make_play py_int tbl cid (Some msg) p1 p2 d = Returned tbl resp).
  { intros resp Hne H. apply outcome_finish in H.
    destruct H as [H|[t H]]; [contradiction|].
    destruct (make_play_returned py_int _ _ _ _ _ _ _ _ H) as [Et _].
    now subst t. }
  assert (Ni : ineligible <> success) by discriminate.
  assert (Na : already_made <> success) by discriminate.
  split; [|split].
  - split.
    + intros H. apply (R _ Ni) in H.
      apply make_play_returned in H. destruct H as [_ [[_ H]|[H _]]];
        [exact H | discriminate].
    + intros [H1 H2]. now rewrite make_play_ineligible.
  - split.
    + intros H. apply (R _ Na) in H.
      apply make_play_returned in H. destruct H as [_ [[H _]|[_ H]]];
        [discriminate | exact H].
    + intros [H1 H2]. now rewrite make_play_duplicate.
  - intros [H|H]; [apply (R _ Ni) in H | apply (R _ Na) in H];
      rewrite H; simpl; auto.
Qed.

(** What an accepted move leaves behind: the table, the snapshot and the
    posts, according to the decision. *)
Lemma accepted_run (tbl : table) (cid msg : string)
    (av : list Z) (p1 p2 : string) (m1 m2 : list string)
    (d' : data) (s : string) (arr : list string) (l : list Z) :
  scan_conns (scan tbl) = Ok (av, p1, p2, m1, m2) ->
  cid = p1 \/ cid = p2 ->
  Py.mem msg m1 = false ->
  Py.mem msg m2 = false ->
  record_move cid msg p1 p2 (mkData av p1 p2 m1 m2 None) = (d', Some s, arr) ->
  ints py_int arr = Ok l ->
  let dec := decision (Py.set l) d' in
  let r := handler tbl (MakePlay cid msg) in
  (dec = "" ->
   r = finish' (scan tbl) (Continue (update_item tbl cid s) d'))
  /\ (dec <> "" ->
      r = finish' (scan tbl)
            (Continue (update_item (update_item tbl p1 "2") p2 "2")
               (mkData [0; 1; 2] "" "" [] []
                  (Some ("GAME",
                         cid ++ " has " ++ dec ++ " against "
                           ++ (if (p1 =? cid)%string then p2 else p1)
                           ++ "!"))))).
Proof.
  intros Hs He H1 H2 Hr Hi dec r. subst r.
  rewrite (handler_play _ _ _ _ _ _ _ _ _ _ Hs).
  rewrite (make_play_accepted py_int tbl cid msg p1 p2
             (mkData av p1 p2 m1 m2 None) d' s arr l He H1 H2 Hr Hi).
  fold dec. cbv zeta. split; intros Hd.
  - rewrite Hd. reflexivity.
  - apply String.eqb_neq in Hd. rewrite Hd. reflexivity.
Qed.

(** C4: when an accepted move ends the game (won or tied), the records
    of player one and of player two are both set to ["2"], the spectator
    type without moves, and the snapshot that is broadcast offers the roles
    0, 1 and 2 and has empty player ids and empty move lists; every post
    delivered carries this snapshot. *)
Theorem C4_terminal_reset (tbl : table) (cid msg : string)
    (av : list Z) (p1 p2 : string) (m1 m2 : list string)
    (d' : data) (s : string) (arr : list string) (l : list Z) :
  scan_conns (scan tbl) = Ok (av, p1, p2, m1, m2) ->
  cid = p1 \/ cid = p2 ->
  Py.mem msg m1 = false ->
  Py.mem msg m2 = false ->
  record_move cid msg p1 p2 (mkData av p1 p2 m1 m2 None) = (d', Some s, arr) ->
  ints py_int arr = Ok l ->
  decision (Py.set l) d' <> "" ->
  let r := handler tbl (MakePlay cid msg) in
  get_item (store r) p1 = Some "2"
  /\ get_item (store r) p2 = Some "2"
  /\ role_of "2" = Some Spectator
  /\ exists fresh,
       r = finish' (scan tbl) (Continue (store r) fresh)
       /\ avail fresh = [0; 1; 2]
       /\ p1Id fresh = "" /\ p2Id fresh = ""
       /\ p1Moves fresh = [] /\ p2Moves fresh = []
       /\ forall p, In p (posts r) -> Data p = fresh.
Proof.
  intros Hs He H1 H2 Hr Hi Hd r.
  destruct (accepted_run tbl cid msg av p1 p2 m1 m2 d' s arr l
              Hs He H1 H2 Hr Hi) as [_ Ht].
  specialize (Ht Hd). fold r in Ht.
  assert (Est : store r = update_item (update_item tbl p1 "2") p2 "2").
  { rewrite Ht. apply store_finish. }
  split; [|split; [|split; [reflexivity|]]].
  - rewrite Est. unfold update_item. rewrite Table.get_item_upsert.
    destruct (p1 =? p2)%string; auto. apply Table.get_item_same.
  - rewrite Est. apply Table.get_item_same.
  - eexists. rewrite Est. split; [exact Ht|].
    repeat (split; [reflexivity|]).
    intros p Hp. rewrite Ht, posts_finish_continue in Hp.
    exact (broadcast_data post_to_connection _ _ _ Hp).
Qed.

(** C6, as amended: an accepted move is appended to the acting player's
    move sequence; while the game goes on the new sequence is written to
    the acting connection's record, behind the role tag, and is what the
    snapshot shows; when the move ends the game nothing of it is written:
    the acting connection's record becomes ["2"]. *)
Theorem C6_move_persisted_while_in_progress (tbl : table) (cid msg : string)
    (av : list Z) (p1 p2 : string) (m1 m2 : list string)
    (d' : data) (s : string) (arr : list string) (l : list Z) :
  scan_conns (scan tbl) = Ok (av, p1, p2, m1, m2) ->
  cid = p1 \/ cid = p2 ->
  Py.mem msg m1 = false ->
  Py.mem msg m2 = false ->
  record_move cid msg p1 p2 (mkData av p1 p2 m1 m2 None) = (d', Some s, arr) ->
  ints py_int arr = Ok l ->
  let dec := decision (Py.set l) d' in
  let r := handler tbl (MakePlay cid msg) in
  arr = ((if (cid =? p2)%string then m2 else m1) ++ [msg])%list
  /\ s = (if (cid =? p2)%string then "1;" else "0;") ++ Py.join "," arr
  /\ (if (cid =? p2)%string then p2Moves d' else p1Moves d') = arr
  /\ (dec = "" ->
      get_item (store r) cid = Some s
      /\ forall p, In p (posts r) -> Data p = d')
  /\ (dec <> "" -> get_item (store r) cid = Some "2").
Proof.
  intros Hs He H1 H2 Hr Hi dec r.
  destruct (accepted_run tbl cid msg av p1 p2 m1 m2 d' s arr l
              Hs He H1 H2 Hr Hi) as [Hg Ht]. fold dec in Hg, Ht. fold r in Hg, Ht.
  split; [exact (record_move_arr _ _ _ _ _ _ _ _ He Hr)|].
  split; [|split; [|split]].
  - revert Hr. unfold record_move.
    destruct (String.eqb_spec cid p1); destruct (String.eqb_spec cid p2);
      simpl; intros H; inversion H; try reflexivity; try tauto.
  - revert Hr. unfold record_move.
    destruct (String.eqb_spec cid p1); destruct (String.eqb_spec cid p2);
      simpl; intros H; inversion H; try reflexivity; try tauto.
  - intros Hd. specialize (Hg Hd). split.
    + rewrite Hg, store_finish. apply Table.get_item_same.
    + intros p Hp. rewrite Hg, posts_finish_continue in Hp.
      exact (broadcast_data post_to_connection _ _ _ Hp).
  - intros Hd. specialize (Ht Hd). rewrite Ht, store_finish.
    unfold update_item. rewrite !Table.get_item_upsert.
    destruct (String.eqb_spec cid p2); auto.
    destruct (String.eqb_spec cid p1); auto. tauto.
Qed.

(** C7, as amended: whenever an accepted move ends the game, won or
    tied alike, the snapshot carries an announcement from the sender
    ["GAME"] whose text names the acting connection, the decision and the
    other player's connection: "<acting> has <won|tied> against <other>!";
    while the game goes on the snapshot carries no announcement. *)
Theorem C7_announcement_on_both_outcomes (tbl : table) (cid msg : string)
    (av : list Z) (p1 p2 : string) (m1 m2 : list string)
    (d' : data) (s : string) (arr : list string) (l : list Z) :
  scan_conns (scan tbl) = Ok (av, p1, p2, m1, m2) ->
  cid = p1 \/ cid = p2 ->
  Py.mem msg m1 = false ->
  Py.mem msg m2 = false ->
  record_move cid msg p1 p2 (mkData av p1 p2 m1 m2 None) = (d', Some s, arr) ->
  ints py_int arr = Ok l ->
  let dec := decision (Py.set l) d' in
  let r := handler tbl (MakePlay cid msg) in
  let other := if (p1 =? cid)%string then p2 else p1 in
  (dec = "won" \/ dec = "tied" ->
   forall p, In p (posts r) ->
     newMessage (Data p)
     = Some ("GAME", cid ++ " has " ++ dec ++ " against " ++ other ++ "!"))
  /\ (dec = "" -> forall p, In p (posts r) -> newMessage (Data p) = None)
  /\ (dec = "won" \/ dec = "tied" \/ dec = "").
Proof.
  intros Hs He H1 H2 Hr Hi dec r other.
  destruct (accepted_run tbl cid msg av p1 p2 m1 m2 d' s arr l
              Hs He H1 H2 Hr Hi) as [Hg Ht]. fold dec in Hg, Ht. fold r in Hg, Ht.
  split; [|split].
  - intros Hd p Hp.
    assert (Hne : dec <> "") by (destruct Hd as [E|E]; rewrite E; discriminate).
    specialize (Ht Hne). rewrite Ht, posts_finish_continue in Hp.
    now rewrite (broadcast_data post_to_connection _ _ _ Hp).
  - intros Hd p Hp. specialize (Hg Hd).
    rewrite Hg, posts_finish_continue in Hp.
    rewrite (broadcast_data post_to_connection _ _ _ Hp).
    revert Hr. unfold record_move.
    destruct (cid =? p1)%string; destruct (cid =? p2)%string;
      simpl; intros H; inversion H; reflexivity.
  - apply Outcome.decision_values.
Qed.

(** C9: no turn order is enforced.  In every state, so also right after
    a move of the same player, a move of a current player to a position
    that is in neither move sequence is not rejected: the handler answers
    neither failure, and the move is applied, written to the player's
    record while the game goes on, or ending the game. *)
Theorem C9_no_turn_alternation (tbl : table) (cid msg : string)
    (av : list Z) (p1 p2 : string) (m1 m2 : list string)
    (d' : data) (s : string) (arr : list string) (l : list Z) :
  scan_conns (scan tbl) = Ok (av, p1, p2, m1, m2) ->
  cid = p1 \/ cid = p2 ->
  Py.mem msg m1 = false ->
  Py.mem msg m2 = false ->
  record_move cid msg p1 p2 (mkData av p1 p2 m1 m2 None) = (d', Some s, arr) ->
  ints py_int arr = Ok l ->
  let dec := decision (Py.set l) d' in
  let r := handler tbl (MakePlay cid msg) in
  outcome r <> Ok ineligible
  /\ outcome r <> Ok already_made
  /\ arr = ((if (cid =? p2)%string then m2 else m1) ++ [msg])%list
  /\ (dec = "" -> get_item (store r) cid
                  = Some ((if (cid =? p2)%string then "1;" else "0;")
                            ++ Py.join "," arr))
  /\ (dec <> "" -> store r = update_item (update_item tbl p1 "2") p2 "2")
  /\ ((forall p, post_to_connection p = Ok tt) -> outcome r = Ok success).
Proof.
  intros Hs He H1 H2 Hr Hi dec r.
  destruct (accepted_run tbl cid msg av p1 p2 m1 m2 d' s arr l
              Hs He H1 H2 Hr Hi) as [Hg Ht]. fold dec in Hg, Ht. fold r in Hg, Ht.
  assert (Hflow : exists t d, r = finish' (scan tbl) (Continue t d)).
  { destruct (String.eqb_spec dec ""); eauto. }
  destruct Hflow as [t [d Hf]].
  assert (Es : s = (if (cid =? p2)%string then "1;" else "0;")
                     ++ Py.join "," arr).
  { revert Hr. unfold record_move.
    destruct (String.eqb_spec cid p1); destruct (String.eqb_spec cid p2);
      simpl; intros H; inversion H; try reflexivity; try tauto. }
  assert (Hout : forall resp, outcome r = Ok resp -> resp = success).
  { intros resp H. rewrite Hf in H. apply outcome_finish in H.
    destruct H as [H|[t' H]]; [auto | discriminate]. }
  repeat split.
  - intros H. apply Hout in H. discriminate.
  - intros H. apply Hout in H. discriminate.
  - exact (record_move_arr _ _ _ _ _ _ _ _ He Hr).
  - intros Hd. rewrite (Hg Hd), store_finish, <- Es.
    apply Table.get_item_same.
  - intros Hd. rewrite (Ht Hd). apply store_finish.
  - intros Hall. rewrite Hf. simpl.
    rewrite (broadcast_all post_to_connection d (scan tbl)); [reflexivity|].
    intros c _. apply Hall.
Qed.

End Moves.

(** ** Examples *)



Example play_rejections_by_string_example :
  scan_conns (scan mid_game) = Ok ([2], "A", "B", ["0"; "1"], ["3"; "4"])
  /\ (outcome (handle mid_game (MakePlay "B" "1")) = Ok already_made <->
      ("B" = "A" \/ "B" = "B") /\ (In "1" ["0"; "1"] \/ In "1" ["3"; "4"])).
Proof.
  split; [reflexivity|].
  exact (proj1 (proj2
    (play_rejections_by_string int_of_digits delivers mid_game "B" "1"
       [2] "A" "B" ["0"; "1"] ["3"; "4"] eq_refl))).
Qed.

(** C3: the duplicate check misses a position that is written
    otherwise.  [int] reads "00" as the cell 0, which A holds, and "05" as
    the cell 5; the handler compares the messages letter by letter, finds
    neither among the recorded moves, and accepts both: B's record gains
    "00", and with "05" B takes the cell 5 that A holds, completes the
    middle row and is announced as the winner.  The same position written
    as A wrote it is refused. *)
Theorem C3_position_written_otherwise_is_accepted :
  int_of_digits "0" = Some 0
  /\ int_of_digits "00" = Some 0
  /\ scan_conns (scan mid_game) = Ok ([2], "A", "B", ["0"; "1"], ["3"; "4"])
  /\ outcome (handle mid_game (MakePlay "B" "0")) = Ok already_made
  /\ outcome (handle mid_game (MakePlay "B" "00")) = Ok success
  /\ store (handle mid_game (MakePlay "B" "00"))
     = [mkConn "A" "0;0,1"; mkConn "B" "1;3,4,00"]
  /\ int_of_digits "5" = Some 5
  /\ int_of_digits "05" = Some 5
  /\ scan_conns (scan a_holds_five)
     = Ok ([2], "A", "B", ["0"; "1"; "5"], ["3"; "4"])
  /\ outcome (handle a_holds_five (MakePlay "B" "5")) = Ok already_made
  /\ handle a_holds_five (MakePlay "B" "05")
     = mkRun lobby
         (map (fun c => mkPost c (mkData [0; 1; 2] "" "" [] []
                                    (Some ("GAME", "B has won against A!"))))
            ["A"; "B"])
         (Ok success).
Proof. repeat split; reflexivity. Qed.

Lemma C4_terminal_reset_witness :
  scan_conns (scan mid_game) = Ok ([2], "A", "B", ["0"; "1"], ["3"; "4"])
  /\ decision (Py.set [0; 1; 2])
       (mkData [2] "A" "B" ["0"; "1"; "2"] ["3"; "4"] None) <> ""
  /\ get_item (store (handle mid_game (MakePlay "A" "2"))) "A" = Some "2"
  /\ get_item (store (handle mid_game (MakePlay "A" "2"))) "B" = Some "2".
Proof.
  assert (Hd : decision (Py.set [0; 1; 2])
                 (mkData [2] "A" "B" ["0"; "1"; "2"] ["3"; "4"] None) <> "").
  { vm_compute. discriminate. }
  split; [reflexivity|]. split; [exact Hd|].
  pose proof (C4_terminal_reset int_of_digits delivers mid_game "A" "2"
       [2] "A" "B" ["0"; "1"] ["3"; "4"]
       (mkData [2] "A" "B" ["0"; "1"; "2"] ["3"; "4"] None)
       "0;0,1,2" ["0"; "1"; "2"] [0; 1; 2]
       eq_refl (or_introl eq_refl) eq_refl eq_refl eq_refl eq_refl Hd) as H.
  exact (conj (proj1 H) (proj1 (proj2 H))).
Defined.

(** C6 fails as stated: A completes the top row with cell 2; the move
    passes both checks, the handler succeeds, and A's record is ["2"], not
    the move sequence ["0;0,1,2"], which no row of the table holds. *)
Lemma C6_counterexample :
  scan_conns (scan mid_game) = Ok ([2], "A", "B", ["0"; "1"], ["3"; "4"])
  /\ Py.mem "2" ["0"; "1"] = false
  /\ Py.mem "2" ["3"; "4"] = false
  /\ outcome (handle mid_game (MakePlay "A" "2")) = Ok success
  /\ get_item (store (handle mid_game (MakePlay "A" "2"))) "A" = Some "2"
  /\ get_item (store (handle mid_game (MakePlay "A" "2"))) "A"
     <> Some "0;0,1,2"
  /\ ~ In (mkConn "A" "0;0,1,2") (store (handle mid_game (MakePlay "A" "2"))).
Proof.
  repeat (split; [reflexivity|]).
  split; [vm_compute; discriminate|].
  vm_compute. intros [H|[H|[]]]; discriminate.
Qed.

Lemma C6_move_persisted_while_in_progress_witness :
  scan_conns (scan mid_game) = Ok ([2], "A", "B", ["0"; "1"], ["3"; "4"])
  /\ decision (Py.set [0; 1; 5])
       (mkData [2] "A" "B" ["0"; "1"; "5"] ["3"; "4"] None) = ""
  /\ get_item (store (handle mid_game (MakePlay "A" "5"))) "A"
     = Some "0;0,1,5".
Proof.
  split; [reflexivity|]. split; [reflexivity|].
  pose proof (C6_move_persisted_while_in_progress int_of_digits delivers
       mid_game "A" "5" [2] "A" "B" ["0"; "1"] ["3"; "4"]
       (mkData [2] "A" "B" ["0"; "1"; "5"] ["3"; "4"] None)
       "0;0,1,5" ["0"; "1"; "5"] [0; 1; 5]
       eq_refl (or_introl eq_refl) eq_refl eq_refl eq_refl eq_refl) as H.
  exact (proj1 (proj1 (proj2 (proj2 (proj2 H))) eq_refl)).
Defined.

(** C7 fails as stated: A takes the last cell and the game is tied; the
    snapshot posted to A and to B carries an announcement that names both
    connection ids and the outcome kind, A in the winner's place. *)
Lemma C7_counterexample :
  scan_conns (scan last_cell)
  = Ok ([2], "A", "B", ["0"; "1"; "5"; "6"], ["2"; "3"; "4"; "7"])
  /\ decision (Py.set [0; 1; 5; 6; 8])
       (mkData [2] "A" "B" ["0"; "1"; "5"; "6"; "8"] ["2"; "3"; "4"; "7"] None)
     = "tied"
  /\ map (fun p => (ConnectionId p, newMessage (Data p)))
       (posts (handle last_cell (MakePlay "A" "8")))
     = [("A", Some ("GAME", "A has tied against B!"));
        ("B", Some ("GAME", "A has tied against B!"))].
Proof.
  repeat split; reflexivity.
Qed.

Lemma C7_announcement_on_both_outcomes_witness :
  scan_conns (scan last_cell)
  = Ok ([2], "A", "B", ["0"; "1"; "5"; "6"], ["2"; "3"; "4"; "7"])
  /\ forall p, In p (posts (handle last_cell (MakePlay "A" "8"))) ->
       newMessage (Data p) = Some ("GAME", "A has tied against B!").
Proof.
  split; [reflexivity|].
  pose proof (C7_announcement_on_both_outcomes int_of_digits delivers
       last_cell "A" "8" [2] "A" "B"
       ["0"; "1"; "5"; "6"] ["2"; "3"; "4"; "7"]
       (mkData [2] "A" "B" ["0"; "1"; "5"; "6"; "8"] ["2"; "3"; "4"; "7"] None)
       "0;0,1,5,6,8" ["0"; "1"; "5"; "6"; "8"] [0; 1; 5; 6; 8]
       eq_refl (or_introl eq_refl) eq_refl eq_refl eq_refl eq_refl) as H.
  exact (proj1 H (or_intror eq_refl)).
Defined.

Lemma C9_no_turn_alternation_witness :
  scan_conns (scan after_a_move) = Ok ([2], "A", "B", ["0"], [])
  /\ outcome (handle after_a_move (MakePlay "A" "1")) = Ok success
  /\ get_item (store (handle after_a_move (MakePlay "A" "1"))) "A"
     = Some "0;0,1".
Proof.
  split; [reflexivity|].
  pose proof (C9_no_turn_alternation int_of_digits delivers
       after_a_move "A" "1" [2] "A" "B" ["0"] []
       (mkData [2] "A" "B" ["0"; "1"] [] None)
       "0;0,1" ["0"; "1"] [0; 1]
       eq_refl (or_introl eq_refl) eq_refl eq_refl eq_refl eq_refl) as H.
  split.
  - exact (proj2 (proj2 (proj2 (proj2 (proj2 H)))) (fun _ => eq_refl)).
  - exact (proj1 (proj2 (proj2 (proj2 H))) eq_refl).
Defined.

(** ** The scan after a join *)

Module Join.

Lemma not_occupied (tbl : table) (r : role) (row : conn) :
  ~ occupied tbl r -> In row tbl -> role_of (connType row) <> Some r.
Proof.
  intros Hn Hin Hr. apply Hn. exists (connectionId row), row. auto.
Qed.

(** The two player fields evolve independently of each other. *)
Lemma p1_fields_untouched (acc pl : players) (l : list conn) :
  (forall row, In row l -> role_of (connType row) <> Some PlayerOne) ->
  scan_loop acc l = Ok pl ->
  pl_p1_id pl = pl_p1_id acc /\ pl_p1_moves pl = pl_p1_moves acc.
Proof.
  intros Hn H. destruct (Scan.scan_loop_p1 acc pl l H) as [[E1 [E2 _]]|[row [Hin [Hr _]]]].
  - auto.
  - exfalso. exact (Hn row Hin Hr).
Qed.

Lemma p2_fields_untouched (acc pl : players) (l : list conn) :
  (forall row, In row l -> role_of (connType row) <> Some PlayerTwo) ->
  scan_loop acc l = Ok pl ->
  pl_p2_id pl = pl_p2_id acc /\ pl_p2_moves pl = pl_p2_moves acc.
Proof.
  intros Hn H. destruct (Scan.scan_loop_p2 acc pl l H) as [[E1 [E2 _]]|[row [Hin [Hr _]]]].
  - auto.
  - exfalso. exact (Hn row Hin Hr).
Qed.

Lemma scan_row_join_p1 (acc : players) (cid : string) :
  scan_row acc (mkConn cid "0;")
  = Ok (mkPlayers cid (pl_p2_id acc) (pl_p1_moves acc) (pl_p2_moves acc)).
Proof. reflexivity. Qed.

Lemma scan_row_join_p2 (acc : players) (cid : string) :
  scan_row acc (mkConn cid "1;")
  = Ok (mkPlayers (pl_p1_id acc) cid (pl_p1_moves acc) (pl_p2_moves acc)).
Proof. reflexivity. Qed.

(** The loop over a table that was written at one key. *)
Lemma scan_loop_written (acc pl : players) (l1 l2 : list conn) (row : conn) :
  scan_loop acc (l1 ++ row :: l2) = Ok pl ->
  exists a1 a2, scan_loop acc l1 = Ok a1 /\ scan_row a1 row = Ok a2
                /\ scan_loop a2 l2 = Ok pl.
Proof.
  rewrite Scan.scan_loop_app.
  destruct (scan_loop acc l1) as [a1|e]; [|discriminate]. simpl.
  destruct (scan_row a1 row) as [a2|e] eqn:Er; [|discriminate]. simpl.
  intros H. exists a1, a2. auto.
Qed.

Lemma rows_ok_upsert (tbl : table) (k t : string) :
  (forall row, In row tbl -> row_ok row = true) ->
  row_ok (mkConn k t) = true ->
  forall row, In row (upsert tbl k t) -> row_ok row = true.
Proof.
  intros H Hk row Hin. destruct (Table.in_upsert tbl k t row Hin); subst; auto.
Qed.

(** Joining as player one when nobody is: the next scan names the joiner
    as player one, with no moves. *)
Lemma scan_after_join_p1 (tbl : table) (cid : string) :
  (forall row, In row tbl -> row_ok row = true) ->
  ~ occupied tbl PlayerOne ->
  exists pl, scan_loop (mkPlayers "" "" [] []) (upsert tbl cid "0;") = Ok pl
             /\ pl_p1_id pl = cid /\ pl_p1_moves pl = [].
Proof.
  intros Hok Hn.
  destruct (proj1 (Scan.scan_loop_ok (mkPlayers "" "" [] []) (upsert tbl cid "0;"))
              (rows_ok_upsert tbl cid "0;" Hok eq_refl)) as [pl Hpl].
  exists pl. split; auto.
  destruct (Table.upsert_split tbl cid "0;") as [l1 [l2 [E Hin]]].
  rewrite E in Hpl.
  destruct (scan_loop_written _ _ _ _ _ Hpl) as [a1 [a2 [H1 [Hr H2]]]].
  rewrite scan_row_join_p1 in Hr. inversion Hr. subst a2. clear Hr.
  assert (N : forall row, In row (l1 ++ l2)%list ->
                role_of (connType row) <> Some PlayerOne).
  { intros row Hrow. apply (not_occupied tbl); auto. now apply Hin. }
  assert (N1 : forall row, In row l1 -> role_of (connType row) <> Some PlayerOne)
    by (intros row Hrow; apply N, in_or_app; auto).
  assert (N2 : forall row, In row l2 -> role_of (connType row) <> Some PlayerOne)
    by (intros row Hrow; apply N, in_or_app; auto).
  destruct (p1_fields_untouched _ _ _ N1 H1) as [I1 M1].
  destruct (p1_fields_untouched _ _ _ N2 H2) as [I2 M2].
  simpl in *. split; congruence.
Qed.

Lemma scan_after_join_p2 (tbl : table) (cid : string) :
  (forall row, In row tbl -> row_ok row = true) ->
  ~ occupied tbl PlayerTwo ->
  exists pl, scan_loop (mkPlayers "" "" [] []) (upsert tbl cid "1;") = Ok pl
             /\ pl_p2_id pl = cid /\ pl_p2_moves pl = [].
Proof.
  intros Hok Hn.
  destruct (proj1 (Scan.scan_loop_ok (mkPlayers "" "" [] []) (upsert tbl cid "1;"))
              (rows_ok_upsert tbl cid "1;" Hok eq_refl)) as [pl Hpl].
  exists pl. split; auto.
  destruct (Table.upsert_split tbl cid "1;") as [l1 [l2 [E Hin]]].
  rewrite E in Hpl.
  destruct (scan_loop_written _ _ _ _ _ Hpl) as [a1 [a2 [H1 [Hr H2]]]].
  rewrite scan_row_join_p2 in Hr. inversion Hr. subst a2. clear Hr.
  assert (N : forall row, In row (l1 ++ l2)%list ->
                role_of (connType row) <> Some PlayerTwo).
  { intros row Hrow. apply (not_occupied tbl); auto. now apply Hin. }
  assert (N1 : forall row, In row l1 -> role_of (connType row) <> Some PlayerTwo)
    by (intros row Hrow; apply N, in_or_app; auto).
  assert (N2 : forall row, In row l2 -> role_of (connType row) <> Some PlayerTwo)
    by (intros row Hrow; apply N, in_or_app; auto).
  destruct (p2_fields_untouched _ _ _ N1 H1) as [I1 M1].
  destruct (p2_fields_untouched _ _ _ N2 H2) as [I2 M2].
  simpl in *. split; congruence.
Qed.

(** What [scan_conns] found: a player id is empty when nobody holds the
    role, and else names a holder. *)
Lemma scan_conns_players (tbl : table) av p1 p2 m1 m2 :
  scan_conns tbl = Ok (av, p1, p2, m1, m2) ->
  av = avail_of p1 p2
  /\ (forall row, In row tbl -> row_ok row = true)
  /\ ((p1 = "" /\ m1 = [] /\ ~ occupied tbl PlayerOne) \/ holds tbl p1 PlayerOne)
  /\ ((p2 = "" /\ m2 = [] /\ ~ occupied tbl PlayerTwo) \/ holds tbl p2 PlayerTwo).
Proof.
  unfold scan_conns.
  destruct (scan_loop (mkPlayers "" "" [] []) tbl) as [pl|e] eqn:E;
    [|discriminate].
  simpl. intros H. inversion H. subst. clear H.
  split; [reflexivity|]. split.
  { apply (Scan.scan_loop_ok (mkPlayers "" "" [] [])). eauto. }
  split.
  - destruct (Scan.scan_loop_p1 _ _ _ E) as [[E1 [E2 Hn]]|[row [Hin [Hr Hid]]]].
    + left. simpl in *. repeat split; auto.
      intros [c [row [Hin [_ Hr]]]]. exact (Hn row Hin Hr).
    + right. exists row. auto.
  - destruct (Scan.scan_loop_p2 _ _ _ E) as [[E1 [E2 Hn]]|[row [Hin [Hr Hid]]]].
    + left. simpl in *. repeat split; auto.
      intros [c [row [Hin [_ Hr]]]]. exact (Hn row Hin Hr).
    + right. exists row. auto.
Qed.

(** When the row written is the only player row, the scan of the written
    table is the scan of that row alone. *)
Lemma scan_after_switch (tbl : table) (k t : string) :
  NoDup (map connectionId tbl) ->
  (forall row, In row tbl -> row_ok row = true) ->
  (forall row, In row tbl -> connectionId row <> k ->
     role_of (connType row) <> Some PlayerOne
     /\ role_of (connType row) <> Some PlayerTwo) ->
  scan_loop (mkPlayers "" "" [] []) (upsert tbl k t)
  = scan_row (mkPlayers "" "" [] []) (mkConn k t).
Proof.
  intros Hnd Hok Hsp.
  destruct (Table.upsert_split_nodup tbl k t Hnd) as [l1 [l2 [E Hin]]].
  rewrite E, Scan.scan_loop_app.
  assert (S : forall acc l, (forall row, In row l -> In row (l1 ++ l2)%list) ->
              scan_loop acc l = Ok acc).
  { intros acc l Hl. apply Scan.scan_loop_spectators. intros row Hrow.
    destruct (Hin row (Hl row Hrow)) as [Ht Hk].
    split; [auto | exact (Hsp row Ht Hk)]. }
  rewrite S by (intros row Hrow; apply in_or_app; auto).
  simpl. destruct (scan_row _ (mkConn k t)) as [a|e]; simpl; auto.
  apply S. intros row Hrow; apply in_or_app; auto.
Qed.

(** Rows with distinct keys are told apart by their key. *)
Lemma same_key_same_row (tbl : table) (a b : conn) :
  NoDup (map connectionId tbl) ->
  In a tbl -> In b tbl -> connectionId a = connectionId b -> a = b.
Proof.
  induction tbl as [|c rest IH]; simpl; [tauto|].
  intros Hnd Ha Hb E. inversion Hnd as [|x xs Hx Hxs]; subst.
  destruct Ha as [Ha|Ha]; destruct Hb as [Hb|Hb]; subst; auto.
  - exfalso. apply Hx. rewrite E. now apply in_map.
  - exfalso. apply Hx. rewrite <- E. now apply in_map.
Qed.

End Join.

(** ** What the scan tells about free roles *)

Lemma truthy_empty (s : string) : Py.truthy s = false <-> s = "".
Proof. destruct s; simpl; split; congruence. Qed.

Lemma truthy_nonempty (s : string) : Py.truthy s = true <-> s <> "".
Proof. destruct s; simpl; split; congruence. Qed.

(** The three cases of [joinGame]. *)
Lemma join_game_cases (tbl : table) (cid p1 p2 : string) (d : data) :
  join_game tbl cid (avail_of p1 p2) d
  = if negb (Py.truthy p1) then
      Continue (update_item tbl cid "0;")
        (set_avail (set_p1Id d cid) (tl (avail_of p1 p2)))
    else if negb (Py.truthy p2) then
      Continue (update_item tbl cid "1;")
        (set_avail (set_p2Id d cid) (tl (avail_of p1 p2)))
    else Continue tbl d.
Proof.
  unfold join_game, avail_of.
  destruct (Py.truthy p1); destruct (Py.truthy p2); reflexivity.
Qed.

Lemma named_holder (tbl : table) (c : string) (r : role) :
  players_named tbl = true -> holds tbl c r -> r <> Spectator -> c <> "".
Proof.
  unfold players_named. rewrite forallb_forall.
  intros Hn [row [Hin [Hid Hr]]] Hs. specialize (Hn row Hin).
  rewrite Hr in Hn. subst c. apply truthy_nonempty.
  destruct r; auto; congruence.
Qed.

(** With named players the scan tells exactly whether a role is free. *)
Lemma scan_free_p1 (tbl : table) av p1 p2 m1 m2 :
  scan_conns tbl = Ok (av, p1, p2, m1, m2) ->
  players_named tbl = true ->
  (p1 = "" <-> ~ occupied tbl PlayerOne).
Proof.
  intros Hs Hn. destruct (Join.scan_conns_players _ _ _ _ _ _ Hs)
    as [_ [_ [[[E [_ Ho]]|Hh] _]]].
  - tauto.
  - split.
    + intros E. subst p1. exfalso.
      apply (named_holder tbl "" PlayerOne Hn Hh); [discriminate | reflexivity].
    + intros Ho. exfalso. apply Ho. exists p1. exact Hh.
Qed.

Lemma scan_free_p2 (tbl : table) av p1 p2 m1 m2 :
  scan_conns tbl = Ok (av, p1, p2, m1, m2) ->
  players_named tbl = true ->
  (p2 = "" <-> ~ occupied tbl PlayerTwo).
Proof.
  intros Hs Hn. destruct (Join.scan_conns_players _ _ _ _ _ _ Hs)
    as [_ [_ [_ [[E [_ Ho]]|Hh]]]].
  - tauto.
  - split.
    + intros E. subst p2. exfalso.
      apply (named_holder tbl "" PlayerTwo Hn Hh); [discriminate | reflexivity].
    + intros Ho. exfalso. apply Ho. exists p2. exact Hh.
Qed.

Lemma scan_conns_of_loop (conns : list conn) (pl : players) :
  scan_loop (mkPlayers "" "" [] []) conns = Ok pl ->
  scan_conns conns
  = Ok (avail_of (pl_p1_id pl) (pl_p2_id pl),
        pl_p1_id pl, pl_p2_id pl, pl_p1_moves pl, pl_p2_moves pl).
Proof. unfold scan_conns. intros H. now rewrite H. Qed.

(** ** Joining *)

Section Joins.

Variable py_int : string -> option Z.
Variable post_to_connection : post -> result unit.

Local Abbreviation handler := (lambda_handler py_int post_to_connection).
Local Abbreviation finish' := (finish post_to_connection).

(** C2: [joinGame] looks at the roles nobody holds: role 0 is offered
    exactly when no connection is player one, role 1 exactly when none is
    player two.  If player one is free the caller's record becomes ["0;"],
    else if player two is free it becomes ["1;"]: the first free role in
    the order player one, player two, with an empty move string, written to
    the table, and the next scan names the caller as that player with no
    moves.  If both roles are held the table is left as it is. *)
Theorem C2_join_assigns_first_free_role (tbl : table) (cid : string)
    (av : list Z) (p1 p2 : string) (m1 m2 : list string) :
  scan_conns (scan tbl) = Ok (av, p1, p2, m1, m2) ->
  players_named tbl = true ->
  let r := handler tbl (JoinGame cid) in
  (In 0 av <-> ~ occupied tbl PlayerOne)
  /\ (In 1 av <-> ~ occupied tbl PlayerTwo)
  /\ (~ occupied tbl PlayerOne ->
      store r = update_item tbl cid "0;"
      /\ get_item (store r) cid = Some "0;"
      /\ exists av' p2' m2',
           scan_conns (scan (store r)) = Ok (av', cid, p2', [], m2'))
  /\ (occupied tbl PlayerOne -> ~ occupied tbl PlayerTwo ->
      store r = update_item tbl cid "1;"
      /\ get_item (store r) cid = Some "1;"
      /\ exists av' p1' m1',
           scan_conns (scan (store r)) = Ok (av', p1', cid, m1', []))
  /\ (occupied tbl PlayerOne -> occupied tbl PlayerTwo -> store r = tbl).
Proof.
  intros Hs Hn r.
  pose proof (scan_free_p1 _ _ _ _ _ _ Hs Hn) as F1.
  pose proof (scan_free_p2 _ _ _ _ _ _ Hs Hn) as F2.
  destruct (Join.scan_conns_players _ _ _ _ _ _ Hs) as [Eav [Hok _]].
  assert (Er : r = finish' (scan tbl)
                 (join_game tbl cid (avail_of p1 p2) (mkData av p1 p2 m1 m2 None))).
  { subst r. rewrite (handler_join _ _ _ _ _ _ _ _ _ Hs). now rewrite Eav. }
  rewrite join_game_cases in Er.
  split; [|split; [|split; [|split]]].
  - rewrite <- F1, Eav. unfold avail_of. rewrite <- truthy_empty.
    destruct (Py.truthy p1); destruct (Py.truthy p2); simpl;
      split; intros H; try discriminate; auto;
      decompose [or] H; try discriminate; contradiction.
  - rewrite <- F2, Eav. unfold avail_of. rewrite <- truthy_empty.
    destruct (Py.truthy p1); destruct (Py.truthy p2); simpl;
      split; intros H; try discriminate; auto;
      decompose [or] H; try discriminate; contradiction.
  - intros H1.
    assert (T1 : Py.truthy p1 = false) by (apply truthy_empty, F1, H1).
    rewrite T1 in Er.
    simpl negb in Er. cbv iota in Er.
    assert (Es : store r = update_item tbl cid "0;")
      by (rewrite Er; apply store_finish).
    split; [exact Es|]. split; [rewrite Es; apply Table.get_item_same|].
    rewrite Es. destruct (Join.scan_after_join_p1 tbl cid Hok H1)
      as [pl [Hpl [Ei Em]]].
    exists (avail_of (pl_p1_id pl) (pl_p2_id pl)), (pl_p2_id pl), (pl_p2_moves pl).
    unfold scan, update_item. rewrite (scan_conns_of_loop _ _ Hpl).
    now rewrite Ei, Em.
  - intros H1 H2.
    assert (T1 : Py.truthy p1 = true).
    { apply truthy_nonempty. intros E. apply F1 in E. contradiction. }
    assert (T2 : Py.truthy p2 = false) by (apply truthy_empty, F2, H2).
    rewrite T1, T2 in Er.
    simpl negb in Er. cbv iota in Er.
    assert (Es : store r = update_item tbl cid "1;")
      by (rewrite Er; apply store_finish).
    split; [exact Es|]. split; [rewrite Es; apply Table.get_item_same|].
    rewrite Es. destruct (Join.scan_after_join_p2 tbl cid Hok H2)
      as [pl [Hpl [Ei Em]]].
    exists (avail_of (pl_p1_id pl) (pl_p2_id pl)), (pl_p1_id pl), (pl_p1_moves pl).
    unfold scan, update_item. rewrite (scan_conns_of_loop _ _ Hpl).
    now rewrite Ei, Em.
  - intros H1 H2.
    assert (T1 : Py.truthy p1 = true).
    { apply truthy_nonempty. intros E. apply F1 in E. contradiction. }
    assert (T2 : Py.truthy p2 = true).
    { apply truthy_nonempty. intros E. apply F2 in E. contradiction. }
    rewrite T1, T2 in Er. rewrite Er. apply store_finish.
Qed.

(** The table after a join, by what the scan found. *)
Lemma join_store (tbl : table) (cid : string)
    (av : list Z) (p1 p2 : string) (m1 m2 : list string) :
  scan_conns (scan tbl) = Ok (av, p1, p2, m1, m2) ->
  store (handler tbl (JoinGame cid))
  = if negb (Py.truthy p1) then update_item tbl cid "0;"
    else if negb (Py.truthy p2) then update_item tbl cid "1;"
    else tbl.
Proof.
  intros Hs. destruct (Join.scan_conns_players _ _ _ _ _ _ Hs) as [Eav _].
  rewrite (handler_join _ _ _ _ _ _ _ _ _ Hs), Eav, join_game_cases.
  rewrite store_finish.
  destruct (Py.truthy p1); destruct (Py.truthy p2); reflexivity.
Qed.

(** C10: a connection that is player one and calls [joinGame] while
    nobody is player two is made player two: its record becomes ["1;"], so
    its moves are gone, nobody is player one any more, and the next scan
    finds no player one, the caller as player two, and no moves.  The same
    holds with the two roles exchanged. *)
Theorem C10_join_switches_player_role (tbl : table) (cid : string) :
  NoDup (map connectionId tbl) ->
  (forall row, In row tbl -> row_ok row = true) ->
  players_named tbl = true ->
  let r := handler tbl (JoinGame cid) in
  (holds tbl cid PlayerOne -> at_most_one tbl PlayerOne ->
   ~ occupied tbl PlayerTwo ->
   get_item (store r) cid = Some "1;"
   /\ ~ occupied (store r) PlayerOne
   /\ scan_conns (scan (store r)) = Ok ([0; 2], "", cid, [], []))
  /\ (holds tbl cid PlayerTwo -> at_most_one tbl PlayerTwo ->
      ~ occupied tbl PlayerOne ->
      get_item (store r) cid = Some "0;"
      /\ ~ occupied (store r) PlayerTwo
      /\ scan_conns (scan (store r)) = Ok ([1; 2], cid, "", [], [])).
Proof.
  intros Hnd Hok Hn r.
  destruct (proj1 (Scan.scan_loop_ok (mkPlayers "" "" [] []) tbl) Hok)
    as [pl Hpl].
  pose proof (scan_conns_of_loop _ _ Hpl) as Hs.
  pose proof (scan_free_p1 _ _ _ _ _ _ Hs Hn) as F1.
  pose proof (scan_free_p2 _ _ _ _ _ _ Hs Hn) as F2.
  pose proof (join_store tbl cid _ _ _ _ _ Hs) as Est. fold r in Est.
  split.
  - intros Hh Hone Hfree.
    assert (Hc : cid <> "")
      by (apply (named_holder tbl cid PlayerOne Hn Hh); discriminate).
    assert (T1 : Py.truthy (pl_p1_id pl) = true).
    { apply truthy_nonempty. intros E. apply F1 in E. apply E. now exists cid. }
    assert (T2 : Py.truthy (pl_p2_id pl) = false) by (apply truthy_empty, F2, Hfree).
    rewrite T1, T2 in Est. simpl in Est. rewrite Est. unfold update_item.
    assert (Hsp : forall row, In row tbl -> connectionId row <> cid ->
              role_of (connType row) <> Some PlayerOne
              /\ role_of (connType row) <> Some PlayerTwo).
    { intros row Hin Hk. split.
      - intros Hr. apply Hk. apply Hone; [|exact Hh]. exists row. auto.
      - apply (Join.not_occupied tbl); auto. }
    split; [apply Table.get_item_same|]. split.
    + intros [c [row [Hin [Hid Hr]]]].
      destruct (Table.in_upsert_nodup tbl cid "1;" row Hnd Hin) as [E|[Ht Hk]].
      * subst row. discriminate.
      * destruct (Hsp row Ht Hk). contradiction.
    + unfold scan, scan_conns.
      rewrite (Join.scan_after_switch tbl cid "1;" Hnd Hok Hsp).
      rewrite Join.scan_row_join_p2. simpl. unfold avail_of. simpl.
      apply truthy_nonempty in Hc. now rewrite Hc.
  - intros Hh Hone Hfree.
    assert (Hc : cid <> "")
      by (apply (named_holder tbl cid PlayerTwo Hn Hh); discriminate).
    assert (T1 : Py.truthy (pl_p1_id pl) = false) by (apply truthy_empty, F1, Hfree).
    rewrite T1 in Est. simpl in Est. rewrite Est. unfold update_item.
    assert (Hsp : forall row, In row tbl -> connectionId row <> cid ->
              role_of (connType row) <> Some PlayerOne
              /\ role_of (connType row) <> Some PlayerTwo).
    { intros row Hin Hk. split.
      - apply (Join.not_occupied tbl); auto.
      - intros Hr. apply Hk. apply Hone; [|exact Hh]. exists row. auto. }
    split; [apply Table.get_item_same|]. split.
    + intros [c [row [Hin [Hid Hr]]]].
      destruct (Table.in_upsert_nodup tbl cid "0;" row Hnd Hin) as [E|[Ht Hk]].
      * subst row. discriminate.
      * destruct (Hsp row Ht Hk). contradiction.
    + unfold scan, scan_conns.
      rewrite (Join.scan_after_switch tbl cid "0;" Hnd Hok Hsp).
      rewrite Join.scan_row_join_p1. simpl. unfold avail_of. simpl.
      apply truthy_nonempty in Hc. now rewrite Hc.
Qed.

End Joins.

Lemma C2_join_assigns_first_free_role_witness :
  scan_conns (scan lobby) = Ok ([0; 1; 2], "", "", [], [])
  /\ players_named lobby = true
  /\ store (handle lobby (JoinGame "B")) = [mkConn "A" "2"; mkConn "B" "0;"]
  /\ get_item (store (handle lobby (JoinGame "B"))) "B" = Some "0;".
Proof.
  split; [reflexivity|]. split; [reflexivity|].
  pose proof (C2_join_assigns_first_free_role int_of_digits delivers
                lobby "B" [0; 1; 2] "" "" [] [] eq_refl eq_refl) as H.
  destruct H as [H0 [_ [H1 _]]].
  assert (F : ~ occupied lobby PlayerOne) by (apply H0; simpl; auto).
  destruct (H1 F) as [Es [Eg _]]. split; [exact Es | exact Eg].
Defined.

Lemma C10_join_switches_player_role_witness :
  holds lone_player "A" PlayerOne
  /\ ~ occupied lone_player PlayerTwo
  /\ get_item (store (handle lone_player (JoinGame "A"))) "A" = Some "1;"
  /\ scan_conns (scan (store (handle lone_player (JoinGame "A"))))
     = Ok ([0; 2], "", "A", [], []).
Proof.
  assert (Hh : holds lone_player "A" PlayerOne).
  { exists (mkConn "A" "0;0,1"). simpl. auto. }
  assert (Hf : ~ occupied lone_player PlayerTwo).
  { intros [c [row [Hin [_ Hr]]]]. simpl in Hin.
    destruct Hin as [E|[E|[]]]; subst row; discriminate. }
  assert (Hnd : NoDup (map connectionId lone_player)).
  { simpl. repeat (apply NoDup_cons; [simpl; intuition discriminate|]).
    apply NoDup_nil. }
  assert (Hok : forall row, In row lone_player -> row_ok row = true).
  { intros row [E|[E|[]]]; subst row; reflexivity. }
  assert (Hone : at_most_one lone_player PlayerOne).
  { intros c1 c2 [r1 [I1 [E1 R1]]] [r2 [I2 [E2 R2]]]. simpl in I1, I2.
    destruct I1 as [I1|[I1|[]]]; subst r1; try discriminate.
    destruct I2 as [I2|[I2|[]]]; subst r2; try discriminate.
    simpl in *. congruence. }
  split; [exact Hh|]. split; [exact Hf|].
  pose proof (C10_join_switches_player_role int_of_digits delivers
                lone_player "A" Hnd Hok eq_refl) as H.
  destruct (proj1 H Hh Hone Hf) as [Eg [_ Es]].
  split; [exact Eg | exact Es].
Defined.

(** ** The broadcast *)

Section Broadcast.

Variable post_to_connection : post -> result unit.

(** C8, as amended: the snapshot is posted to the connections in scan
    order, and the first post that fails ends the broadcast: the
    connections before it have received the snapshot, those after it are
    not posted to, and the failure leaves the handler as its exception,
    after the table was written. *)
Theorem C8_broadcast_stops_at_first_failure (d : data)
    (before after : list conn) (c : conn) (e : exn) :
  (forall x, In x before ->
     post_to_connection (mkPost (connectionId x) d) = Ok tt) ->
  post_to_connection (mkPost (connectionId c) d) = Raise e ->
  broadcast post_to_connection d (before ++ c :: after)
  = (map (fun x => mkPost (connectionId x) d) before, Raise e)
  /\ forall tbl,
       finish post_to_connection (before ++ c :: after) (Continue tbl d)
       = mkRun tbl (map (fun x => mkPost (connectionId x) d) before) (Raise e).
Proof.
  intros Hb Hc.
  assert (B : broadcast post_to_connection d (before ++ c :: after)
              = (map (fun x => mkPost (connectionId x) d) before, Raise e)).
  { induction before as [|x xs IH]; simpl.
    - now rewrite Hc.
    - rewrite (Hb x (or_introl eq_refl)).
      rewrite IH; [reflexivity|]. intros y Hy. apply Hb. now right. }
  split; [exact B|]. intros tbl. simpl. now rewrite B.
Qed.

End Broadcast.

(** C8 fails as stated: B sends a chat message while the connection of A
    is gone.  The post to A raises; the post to B, which would be
    delivered, is never made, and the handler ends with the exception. *)
Lemma C8_counterexample :
  gone "A" (mkPost "B" (mkData [0; 1; 2] "" "" [] [] (Some ("B", "hi"))))
  = Ok tt
  /\ posts (lambda_handler int_of_digits (gone "A") lobby (SendMessage "B" "hi"))
     = []
  /\ outcome (lambda_handler int_of_digits (gone "A") lobby (SendMessage "B" "hi"))
     = Raise (ClientError "A").
Proof. repeat split; reflexivity. Qed.

Lemma C8_broadcast_stops_at_first_failure_witness :
  gone "B" (mkPost "A" (mkData [2] "" "" [] [] None)) = Ok tt
  /\ gone "B" (mkPost "B" (mkData [2] "" "" [] [] None)) = Raise (ClientError "B")
  /\ broadcast (gone "B") (mkData [2] "" "" [] [] None)
       [mkConn "A" "2"; mkConn "B" "2"; mkConn "C" "2"]
     = ([mkPost "A" (mkData [2] "" "" [] [] None)], Raise (ClientError "B")).
Proof.
  split; [reflexivity|]. split; [reflexivity|].
  refine (proj1 (C8_broadcast_stops_at_first_failure (gone "B")
                   (mkData [2] "" "" [] [] None)
                   [mkConn "A" "2"] [mkConn "C" "2"] (mkConn "B" "2")
                   (ClientError "B") _ eq_refl)).
  intros x [E|[]]. subst x. reflexivity.
Defined.

(** ** The registry invariant *)

Module Registry.

Lemma holds_upsert (tbl : table) (k t c : string) (r : role) :
  holds (upsert tbl k t) c r ->
  (c = k /\ role_of t = Some r) \/ holds tbl c r.
Proof.
  intros [row [Hin [Hid Hr]]].
  destruct (Table.in_upsert tbl k t row Hin) as [E|Ht].
  - subst row. simpl in *. auto.
  - right. exists row. auto.
Qed.

Lemma holds_delete (tbl : table) (k c : string) (r : role) :
  holds (delete_item tbl k) c r -> holds tbl c r.
Proof.
  intros [row [Hin H]]. apply Table.in_delete in Hin.
  exists row. tauto.
Qed.

Lemma inv_empty : registry_inv [].
Proof.
  split; [constructor|]. split; [intros row []|].
  split; intros c1 c2 [row [[] _]].
Qed.

Lemma inv_upsert_spectator (tbl : table) (k : string) :
  registry_inv tbl -> registry_inv (upsert tbl k "2").
Proof.
  intros [Hnd [Hwf [H1 H2]]]. split; [|split; [|split]].
  - now apply Table.nodup_upsert.
  - intros row Hin. destruct (Table.in_upsert tbl k "2" row Hin) as [E|Ht];
      auto.
    subst row. repeat split; simpl; congruence.
  - intros c1 c2 Ha Hb.
    apply holds_upsert in Ha, Hb.
    destruct Ha as [[_ Ha]|Ha]; [discriminate|].
    destruct Hb as [[_ Hb]|Hb]; [discriminate|]. auto.
  - intros c1 c2 Ha Hb.
    apply holds_upsert in Ha, Hb.
    destruct Ha as [[_ Ha]|Ha]; [discriminate|].
    destruct Hb as [[_ Hb]|Hb]; [discriminate|]. auto.
Qed.

(** Writing a player row at a real connection id keeps the invariant when
    nobody else holds that role. *)
Lemma inv_upsert_player (tbl : table) (k t : string) (r : role) :
  registry_inv tbl ->
  k <> "" ->
  row_ok (mkConn k t) = true ->
  role_of t = Some r ->
  (forall c, holds tbl c r -> c = k) ->
  registry_inv (upsert tbl k t).
Proof.
  intros [Hnd [Hwf [H1 H2]]] Hk Hok Hr Honly.
  assert (A : forall r', at_most_one tbl r' ->
              at_most_one (upsert tbl k t) r').
  { intros r' Hone c1 c2 Ha Hb.
    apply holds_upsert in Ha, Hb.
    destruct Ha as [[Ea Ra]|Ha]; destruct Hb as [[Eb Rb]|Hb].
    - congruence.
    - assert (r' = r) by congruence. subst r'.
      rewrite (Honly c2 Hb). exact Ea.
    - assert (r' = r) by congruence. subst r'.
      rewrite (Honly c1 Ha). now symmetry.
    - auto. }
  split; [|split; [|split]]; auto.
  - now apply Table.nodup_upsert.
  - intros row Hin. destruct (Table.in_upsert tbl k t row Hin) as [E|Ht];
      auto.
    subst row. repeat split; simpl; congruence.
Qed.

Lemma inv_delete (tbl : table) (k : string) :
  registry_inv tbl -> registry_inv (delete_item tbl k).
Proof.
  intros [Hnd [Hwf [H1 H2]]]. split; [|split; [|split]].
  - now apply Table.nodup_delete.
  - intros row Hin. apply Table.in_delete in Hin. apply Hwf. tauto.
  - intros c1 c2 Ha Hb. apply holds_delete in Ha, Hb. auto.
  - intros c1 c2 Ha Hb. apply holds_delete in Ha, Hb. auto.
Qed.

Lemma inv_named (tbl : table) :
  registry_inv tbl -> players_named tbl = true.
Proof.
  intros [_ [Hwf _]]. unfold players_named. apply forallb_forall.
  intros row Hin. destruct (Hwf row Hin) as [_ [_ Hid]].
  destruct (role_of (connType row)) as [[| |]|]; auto;
    destruct (connectionId row); auto; exfalso; apply Hid;
    try discriminate; reflexivity.
Qed.

(** Every connection of a sound registry holds exactly one role. *)
Lemma inv_one_role_each (tbl : table) :
  registry_inv tbl -> one_role_each tbl.
Proof.
  intros [Hnd [Hwf _]] row Hin.
  destruct (Hwf row Hin) as [_ [Hr _]].
  destruct (role_of (connType row)) as [r|] eqn:Er; [|congruence].
  exists r. split.
  - exists row. auto.
  - intros r' [row' [Hin' [Hid' Hr']]].
    rewrite (Join.same_key_same_row tbl row' row Hnd Hin' Hin Hid') in Hr'.
    congruence.
Qed.

Lemma split_nonempty (sep : ascii) (s : string) : Py.split sep s <> [].
Proof.
  destruct s as [|c s]; simpl; [discriminate|].
  destruct (Ascii.eqb c sep); [discriminate|].
  destruct (Py.split sep s); discriminate.
Qed.

(** A role tag followed by [";"] and anything is a row the scan reads. *)
Lemma row_ok_p1 (k x : string) : row_ok (mkConn k ("0;" ++ x)) = true.
Proof.
  unfold row_ok, scan_row. simpl.
  pose proof (split_nonempty ";" x) as H.
  destruct (Py.split ";" x); [contradiction | reflexivity].
Qed.

Lemma row_ok_p2 (k x : string) : row_ok (mkConn k ("1;" ++ x)) = true.
Proof.
  unfold row_ok, scan_row. simpl.
  pose proof (split_nonempty ";" x) as H.
  destruct (Py.split ";" x); [contradiction | reflexivity].
Qed.

End Registry.

Section Invariant.

Variable py_int : string -> option Z.
Variable post_to_connection : post -> result unit.

Local Abbreviation handler := (lambda_handler py_int post_to_connection).

(** The table a [makePlay] leaves: untouched, reset, or the acting
    player's row rewritten under the same role tag. *)
Lemma make_play_table (tbl : table) (cid : string) (m : option string)
    (p1 p2 : string) (d : data) :
  let t := match make_play py_int tbl cid m p1 p2 d with
           | Returned t _ | Continue t _ | Raised t _ => t
           end in
  t = tbl
  \/ t = update_item (update_item tbl p1 "2") p2 "2"
  \/ (cid = p2 /\ exists x, t = update_item tbl cid ("1;" ++ x))
  \/ (cid = p1 /\ exists x, t = update_item tbl cid ("0;" ++ x)).
Proof.
  unfold make_play.
  destruct (negb (cid =? p1)%string && negb (cid =? p2)%string);
    [now left|].
  destruct m as [msg|]; [|now left].
  destruct (Py.mem msg (p1Moves d) || Py.mem msg (p2Moves d)); [now left|].
  destruct (record_move cid msg p1 p2 d) as [[d' ms] arr] eqn:Hr.
  destruct (ints py_int arr) as [l|e]; [|now left].
  cbv zeta.
  destruct (decision (Py.set l) d' =? "")%string; simpl.
  - revert Hr. unfold record_move.
    destruct (String.eqb_spec cid p1) as [E1|E1];
      destruct (String.eqb_spec cid p2) as [E2|E2];
      intros H; inversion H; simpl; eauto 7.
  - right. now left.
Qed.

(** One invocation keeps the registry sound. *)
Lemma handler_inv (tbl : table) (ev : event) :
  registry_inv tbl ->
  connection_id ev <> "" ->
  registry_inv (store (handler tbl ev)).
Proof.
  intros Hinv Hc. unfold lambda_handler.
  destruct (route_key ev =? "$connect")%string.
  { simpl. now apply Registry.inv_upsert_spectator. }
  set (tbl1 := if (route_key ev =? "$disconnect")%string
               then delete_item tbl (connection_id ev) else tbl).
  assert (I1 : registry_inv tbl1).
  { subst tbl1. destruct (route_key ev =? "$disconnect")%string; auto.
    now apply Registry.inv_delete. }
  clearbody tbl1. clear Hinv tbl. cbv zeta.
  destruct (scan_conns (scan tbl1)) as [[[[[av p1] p2] m1] m2]|e] eqn:Hs;
    [|exact I1].
  rewrite store_finish.
  pose proof (Registry.inv_named tbl1 I1) as Hn.
  pose proof (scan_free_p1 _ _ _ _ _ _ Hs Hn) as F1.
  pose proof (scan_free_p2 _ _ _ _ _ _ Hs Hn) as F2.
  destruct (Join.scan_conns_players _ _ _ _ _ _ Hs) as [Eav [_ [P1 P2]]].
  pose proof I1 as [Hnd [Hwf [A1 A2]]].
  unfold scan in *. unfold route.
  destruct (route_key ev =? "joinGame")%string.
  { rewrite Eav, join_game_cases.
    destruct (Py.truthy p1) eqn:T1; simpl.
    - destruct (Py.truthy p2) eqn:T2; simpl; auto.
      apply (Registry.inv_upsert_player tbl1 _ "1;" PlayerTwo); auto.
      intros c Hh. exfalso. apply truthy_empty in T2.
      apply F2 in T2. apply T2. now exists c.
    - apply (Registry.inv_upsert_player tbl1 _ "0;" PlayerOne); auto.
      intros c Hh. exfalso. apply truthy_empty in T1.
      apply F1 in T1. apply T1. now exists c. }
  destruct (route_key ev =? "makePlay")%string.
  { pose proof (make_play_table tbl1 (connection_id ev) (message ev) p1 p2
                  (mkData av p1 p2 m1 m2 None)) as H.
    cbv zeta in H.
    destruct H as [H|[H|[[E [x H]]|[E [x H]]]]]; rewrite H.
    - exact I1.
    - now apply Registry.inv_upsert_spectator, Registry.inv_upsert_spectator.
    - apply (Registry.inv_upsert_player tbl1 _ _ PlayerTwo); auto.
      + apply Registry.row_ok_p2.
      + intros c Hh. destruct P2 as [[E2 _]|P2]; [congruence|].
        rewrite E. exact (A2 c p2 Hh P2).
    - apply (Registry.inv_upsert_player tbl1 _ _ PlayerOne); auto.
      + apply Registry.row_ok_p1.
      + intros c Hh. destruct P1 as [[E1 _]|P1]; [congruence|].
        rewrite E. exact (A1 c p1 Hh P1). }
  destruct (route_key ev =? "sendMessage")%string.
  { unfold send_message. destruct (message ev); exact I1. }
  exact I1.
Qed.

Lemma run_events_inv (tbl : table) (evs : list event) :
  registry_inv tbl ->
  Forall (fun ev => connection_id ev <> "") evs ->
  registry_inv (run_events py_int post_to_connection tbl evs).
Proof.
  revert tbl. induction evs as [|ev rest IH]; intros tbl Hinv Hevs; simpl.
  - exact Hinv.
  - inversion Hevs as [|x xs Hx Hxs]; subst.
    apply IH; auto. now apply handler_inv.
Qed.

(** C5: after any sequence of events from real connections, handled one
    after the other from the empty registry, at most one connection is
    player one, at most one is player two, and every connection of the
    registry holds exactly one role. *)
Theorem C5_player_roles_exclusive (evs : list event) :
  Forall (fun ev => connection_id ev <> "") evs ->
  let tbl := run_events py_int post_to_connection [] evs in
  at_most_one tbl PlayerOne
  /\ at_most_one tbl PlayerTwo
  /\ one_role_each tbl.
Proof.
  intros Hevs tbl.
  assert (Hinv : registry_inv tbl)
    by (apply run_events_inv; [apply Registry.inv_empty | exact Hevs]).
  split; [|split].
  - apply Hinv.
  - apply Hinv.
  - now apply Registry.inv_one_role_each.
Qed.

End Invariant.

Lemma C5_player_roles_exclusive_witness :
  Forall (fun ev => connection_id ev <> "") three_joins
  /\ handle_all [] three_joins
     = [mkConn "C" "0;"; mkConn "A" "1;"; mkConn "B" "2"]
  /\ at_most_one (handle_all [] three_joins) PlayerOne
  /\ at_most_one (handle_all [] three_joins) PlayerTwo.
Proof.
  assert (H : Forall (fun ev => connection_id ev <> "") three_joins).
  { unfold three_joins. repeat (apply Forall_cons; [discriminate|]).
    apply Forall_nil. }
  split; [exact H|]. split; [reflexivity|].
  pose proof (C5_player_roles_exclusive int_of_digits delivers three_joins H)
    as [H1 [H2 _]].
  split; [exact H1 | exact H2].
Defined.

(** The empty string is the handler's mark for "no player": an event that
    carried it as connection id would be taken for a player of the empty
    game, and its row would hide from the availability check, so that two
    connections end up as player two. *)
Remark empty_id_is_no_connection :
  handle_all [] [MakePlay "" "4"; JoinGame "B"; JoinGame "C"]
  = [mkConn "" "1;4"; mkConn "B" "0;"; mkConn "C" "1;"].
Proof. reflexivity. Qed.

(** ** The scenarios of the specification *)

(** A joins as player one and B as player two; A plays 0, B plays 3, A
    plays 1, B plays 4: the game goes on. *)
Example scenario_in_progress :
  handle_all []
    [Connect "A"; Connect "B"; JoinGame "A"; JoinGame "B";
     MakePlay "A" "0"; MakePlay "B" "3"; MakePlay "A" "1"; MakePlay "B" "4"]
  = mid_game.
Proof. reflexivity. Qed.

(** A then plays 2 and wins: both are spectators again and everybody is
    told so. *)
Example scenario_won :
  handle mid_game (MakePlay "A" "2")
  = mkRun lobby
      (map (fun c => mkPost c (mkData [0; 1; 2] "" "" [] []
                                 (Some ("GAME", "A has won against B!"))))
         ["A"; "B"])
      (Ok success).
Proof. reflexivity. Qed.

(** The top row and the diagonal win; a full board without a line ties. *)
Example win_detection :
  decision (Py.set [0; 1; 2]) (mkData [2] "A" "B" ["0"; "1"; "2"] [] None)
  = "won"
  /\ decision (Py.set [0; 4; 8]) (mkData [2] "A" "B" ["0"; "4"; "8"] [] None)
     = "won"
  /\ decision (Py.set [0; 1; 5; 6; 8])
       (mkData [2] "A" "B" ["0"; "1"; "5"; "6"; "8"] ["2"; "3"; "4"; "7"] None)
     = "tied".
Proof. repeat split; reflexivity. Qed.

(** A move to a cell that is taken is refused, whoever took it. *)
Example cell_taken :
  outcome (handle mid_game (MakePlay "A" "3")) = Ok already_made
  /\ outcome (handle mid_game (MakePlay "A" "0")) = Ok already_made.
Proof. split; reflexivity. Qed.

(** ** Connecting, leaving, and the records of the others *)

Module Keys.

Lemma get_item_delete (tbl : table) (k k' : string) :
  get_item (delete_item tbl k) k'
  = if (k' =? k)%string then None else get_item tbl k'.
Proof.
  unfold get_item, delete_item.
  induction tbl as [|c rest IH]; simpl.
  - destruct (k' =? k)%string; reflexivity.
  - destruct (String.eqb_spec (connectionId c) k) as [Ek|Ek]; simpl.
    + rewrite IH. destruct (String.eqb_spec k' k) as [E|E]; auto.
      destruct (String.eqb_spec (connectionId c) k'); auto. congruence.
    + destruct (String.eqb_spec (connectionId c) k') as [Ek'|Ek']; simpl.
      * subst k'. destruct (String.eqb_spec (connectionId c) k); auto.
        contradiction.
      * exact IH.
Qed.

(** A key that is looked up with success has a row. *)
Lemma get_item_in (tbl : table) (k t : string) :
  get_item tbl k = Some t -> In (mkConn k t) tbl.
Proof.
  unfold get_item. induction tbl as [|c rest IH]; simpl; [discriminate|].
  destruct (String.eqb_spec (connectionId c) k) as [E|E]; simpl.
  - intros H. inversion H. left. destruct c; simpl in *. congruence.
  - auto.
Qed.

Lemma get_item_none (tbl : table) (k : string) :
  get_item tbl k = None <-> ~ In k (map connectionId tbl).
Proof.
  unfold get_item. induction tbl as [|c rest IH]; simpl; [tauto|].
  destruct (String.eqb_spec (connectionId c) k) as [E|E]; simpl.
  - split; [discriminate | tauto].
  - rewrite IH. tauto.
Qed.

End Keys.

Section Edges.

Variable py_int : string -> option Z.
Variable post_to_connection : post -> result unit.

Local Abbreviation handler := (lambda_handler py_int post_to_connection).
Local Abbreviation finish' := (finish post_to_connection).

(** The connections posted to are the first ones of the scan, in its
    order. *)
Lemma broadcast_prefix (d : data) (conns : list conn) :
  exists pre rest,
    conns = (pre ++ rest)%list
    /\ fst (broadcast post_to_connection d conns)
       = map (fun c => mkPost (connectionId c) d) pre.
Proof.
  induction conns as [|c conns [pre [rest [E IH]]]]; simpl.
  - exists [], []. auto.
  - destruct (post_to_connection (mkPost (connectionId c) d)).
    + exists (c :: pre), rest.
      destruct (broadcast post_to_connection d conns).
      simpl in *. split; congruence.
    + exists [], (c :: conns). auto.
Qed.

Lemma posts_finish (conns : list conn) (f : flow) :
  posts (finish' conns f)
  = match f with
    | Continue _ d => fst (broadcast post_to_connection d conns)
    | _ => []
    end.
Proof.
  destruct f; simpl; auto.
  destruct (broadcast post_to_connection d conns); reflexivity.
Qed.

(** The handler after the route [$connect], step by step. *)
Lemma handler_rest (tbl : table) (ev : event) :
  (route_key ev =? "$connect")%string = false ->
  handler tbl ev
  = let tbl1 := if (route_key ev =? "$disconnect")%string
                then delete_item tbl (connection_id ev) else tbl in
    match scan_conns (scan tbl1) with
    | Raise e => mkRun tbl1 [] (Raise e)
    | Ok (av, p1, p2, m1, m2) =>
        finish' (scan tbl1)
          (route py_int tbl1 ev av p1 p2 (mkData av p1 p2 m1 m2 None))
    end.
Proof.
  intros H. unfold lambda_handler. rewrite H. cbv zeta.
  destruct (scan_conns _) as [[[[[av p1] p2] m1] m2]|e]; reflexivity.
Qed.

(** X1: [$connect] writes the spectator record ["2"] under the
    connection id, whatever was there, a player's record with its moves
    included; the other records stay, nothing is posted to anybody, and the
    handler succeeds, whatever the table holds. *)
Theorem connect_registers_silently (tbl : table) (cid : string)
    (m : option string) (k : string) :
  let r := handler tbl (mkEvent "$connect" cid m) in
  get_item (store r) cid = Some "2"
  /\ (k <> cid -> get_item (store r) k = get_item tbl k)
  /\ (In cid (map connectionId tbl) ->
      map connectionId (store r) = map connectionId tbl)
  /\ posts r = []
  /\ outcome r = Ok success.
Proof.
  cbv zeta. unfold lambda_handler. cbn [route_key connection_id].
  change ("$connect" =? "$connect")%string with true. cbv iota.
  unfold put_item. cbn [store posts outcome connectionId connType].
  split; [apply Table.get_item_same|]. split; [|split; [|split]]; auto.
  - intros Hk. rewrite Table.get_item_upsert.
    apply String.eqb_neq in Hk. now rewrite Hk.
  - intros Hin. destruct (Table.keys_upsert tbl cid "2") as [E|[Hn _]]; tauto.
Qed.

(** X2: [$disconnect] removes the record of the connection and no
    other; the connection that left is not posted to, and a connection
    without a record leaves the table as it is. *)
Theorem disconnect_removes (tbl : table) (cid : string)
    (m : option string) (k : string) :
  let r := handler tbl (mkEvent "$disconnect" cid m) in
  store r = delete_item tbl cid
  /\ get_item (store r) cid = None
  /\ (k <> cid -> get_item (store r) k = get_item tbl k)
  /\ (forall p, In p (posts r) -> ConnectionId p <> cid)
  /\ (~ In cid (map connectionId tbl) -> store r = tbl).
Proof.
  cbv zeta. rewrite handler_rest by reflexivity.
  cbn [route_key connection_id].
  change ("$disconnect" =? "$disconnect")%string with true. cbv iota zeta.
  set (tbl1 := delete_item tbl cid).
  assert (Er : forall av p1 p2 d,
             route py_int tbl1 (mkEvent "$disconnect" cid m) av p1 p2 d
             = Continue tbl1 d) by reflexivity.
  assert (Es : store (match scan_conns (scan tbl1) with
                      | Ok (av, p1, p2, m1, m2) =>
                          finish' (scan tbl1)
                            (route py_int tbl1 (mkEvent "$disconnect" cid m)
                               av p1 p2 (mkData av p1 p2 m1 m2 None))
                      | Raise e => mkRun tbl1 [] (Raise e)
                      end) = tbl1).
  { destruct (scan_conns (scan tbl1)) as [[[[[av p1] p2] m1] m2]|e];
      [|reflexivity].
    rewrite Er. apply store_finish. }
  rewrite Es.
  split; [reflexivity|]. split; [|split; [|split]].
  - unfold tbl1. rewrite Keys.get_item_delete. now rewrite String.eqb_refl.
  - intros Hk. unfold tbl1. rewrite Keys.get_item_delete.
    apply String.eqb_neq in Hk. now rewrite Hk.
  - intros p Hp.
    destruct (scan_conns (scan tbl1))
      as [[[[[av p1] p2] m1] m2]|e]; [|destruct Hp].
    rewrite Er, posts_finish in Hp.
    destruct (broadcast_prefix (mkData av p1 p2 m1 m2 None) (scan tbl1))
      as [pre [rest [Ec En]]].
    rewrite En in Hp. apply in_map_iff in Hp.
    destruct Hp as [c [Ep Hc]]. subst p. simpl.
    assert (Hin : In c tbl1).
    { unfold scan in Ec. rewrite Ec. apply in_or_app. auto. }
    apply Table.in_delete in Hin. tauto.
  - intros Hn. unfold tbl1, delete_item. clear -Hn.
    induction tbl as [|c rest IH]; simpl; auto.
    simpl in Hn. destruct (String.eqb_spec (connectionId c) cid) as [E|E];
      [tauto|]. simpl. f_equal. apply IH. tauto.
Qed.

(** The table a route leaves: untouched, the caller's record written, or
    the records of the two players reset. *)
Lemma route_table (tbl : table) (ev : event) (av : list Z)
    (p1 p2 : string) (d : data) :
  let t := match route py_int tbl ev av p1 p2 d with
           | Returned t _ | Continue t _ | Raised t _ => t
           end in
  t = tbl
  \/ (exists x, t = update_item tbl (connection_id ev) x)
  \/ t = update_item (update_item tbl p1 "2") p2 "2".
Proof.
  unfold route.
  destruct (route_key ev =? "joinGame")%string.
  { unfold join_game. destruct (Py.memZ 0 av || Py.memZ 1 av); auto.
    destruct av as [|p_id av']; simpl; eauto. }
  destruct (route_key ev =? "makePlay")%string.
  { pose proof (make_play_table py_int tbl (connection_id ev) (message ev)
                  p1 p2 d) as H.
    cbv zeta in *. destruct H as [H|[H|[[_ [x H]]|[_ [x H]]]]]; eauto. }
  destruct (route_key ev =? "sendMessage")%string.
  { unfold send_message. destruct (message ev); simpl; auto. }
  simpl. auto.
Qed.

(** X3: an event never touches the record of another connection that
    is not a player: under a key other than the caller's, that holds
    neither player role, the table holds after the event what it held
    before. *)
Theorem bystanders_untouched (tbl : table) (ev : event) (k : string) :
  k <> connection_id ev ->
  k <> "" ->
  ~ holds tbl k PlayerOne ->
  ~ holds tbl k PlayerTwo ->
  get_item (store (handler tbl ev)) k = get_item tbl k.
Proof.
  intros Hk Hne H1 H2.
  assert (U : forall t x, get_item (update_item t (connection_id ev) x) k
                          = get_item t k).
  { intros t x. unfold update_item. rewrite Table.get_item_upsert.
    apply String.eqb_neq in Hk. now rewrite Hk. }
  destruct (route_key ev =? "$connect")%string eqn:Ec.
  { unfold lambda_handler. rewrite Ec. simpl. apply U. }
  rewrite (handler_rest tbl ev Ec). cbv zeta.
  set (tbl1 := if (route_key ev =? "$disconnect")%string
               then delete_item tbl (connection_id ev) else tbl).
  assert (E1 : get_item tbl1 k = get_item tbl k).
  { subst tbl1. destruct (route_key ev =? "$disconnect")%string; auto.
    rewrite Keys.get_item_delete. apply String.eqb_neq in Hk.
    now rewrite Hk. }
  assert (Hh : forall r, holds tbl1 k r -> holds tbl k r).
  { subst tbl1. destruct (route_key ev =? "$disconnect")%string; auto.
    intros r. apply Registry.holds_delete. }
  destruct (scan_conns (scan tbl1)) as [[[[[av p1] p2] m1] m2]|e] eqn:Hs;
    [|exact E1].
  rewrite store_finish.
  destruct (Join.scan_conns_players _ _ _ _ _ _ Hs) as [_ [_ [P1 P2]]].
  assert (N1 : k <> p1).
  { intros E. subst p1. destruct P1 as [[E _]|P1]; [congruence|].
    apply H1, Hh, P1. }
  assert (N2 : k <> p2).
  { intros E. subst p2. destruct P2 as [[E _]|P2]; [congruence|].
    apply H2, Hh, P2. }
  pose proof (route_table tbl1 ev av p1 p2 (mkData av p1 p2 m1 m2 None)) as H.
  cbv zeta in H. destruct H as [H|[[x H]|H]]; rewrite H.
  - exact E1.
  - now rewrite U.
  - unfold update_item. rewrite !Table.get_item_upsert.
    apply String.eqb_neq in N1, N2. now rewrite N1, N2.
Qed.

End Edges.

(** ** Rows the scan cannot read *)

Module Unreadable.

(** A string without the separator is not split. *)
Lemma split_no_char (sep : ascii) (s : string) :
  no_char sep s = true -> Py.split sep s = [s].
Proof.
  induction s as [|c s IH]; simpl; auto.
  destruct (Ascii.eqb c sep); simpl; [discriminate|].
  intros H. now rewrite (IH H).
Qed.

(** There is a second piece exactly when the separator occurs. *)
Lemma split_second (sep : ascii) (s : string) :
  nth_error (Py.split sep s) 1 = None <-> no_char sep s = true.
Proof.
  induction s as [|c s IH]; simpl.
  - tauto.
  - destruct (Ascii.eqb c sep); simpl.
    + pose proof (Registry.split_nonempty sep s) as H.
      destruct (Py.split sep s); [contradiction|].
      split; discriminate.
    + pose proof (Registry.split_nonempty sep s) as H.
      destruct (Py.split sep s) as [|w ws]; [contradiction|].
      simpl in *. exact IH.
Qed.

Lemma row_ok_unreadable (c : conn) : row_ok c = negb (unreadable c).
Proof.
  unfold row_ok, unreadable, scan_row.
  destruct (connType c) as [|t s] eqn:E; [reflexivity|].
  rewrite <- E.
  destruct (no_char ";" (connType c)) eqn:N.
  - apply split_second in N. rewrite N.
    destruct (Ascii.eqb t "0"); [reflexivity|].
    destruct (Ascii.eqb t "1"); reflexivity.
  - assert (H : nth_error (Py.split ";" (connType c)) 1 <> None).
    { intros H. apply split_second in H. congruence. }
    destruct (nth_error (Py.split ";" (connType c)) 1); [|contradiction].
    destruct (Ascii.eqb t "0"); [reflexivity|].
    destruct (Ascii.eqb t "1"); reflexivity.
Qed.

Lemma scan_row_raises (acc : players) (c : conn) (e : exn) :
  scan_row acc c = Raise e -> e = IndexError.
Proof.
  unfold scan_row. destruct (connType c) as [|t s]; [congruence|].
  destruct (Ascii.eqb t "0").
  { destruct (nth_error _ 1); congruence. }
  destruct (Ascii.eqb t "1"); [|discriminate].
  destruct (nth_error _ 1); congruence.
Qed.

Lemma scan_loop_raises (acc : players) (l : list conn) (e : exn) :
  scan_loop acc l = Raise e -> e = IndexError.
Proof.
  revert acc. induction l as [|c l IH]; intros acc; simpl; [discriminate|].
  destruct (scan_row acc c) as [a|e'] eqn:Ea; simpl.
  - apply IH.
  - intros H. inversion H. subst. exact (scan_row_raises _ _ _ Ea).
Qed.

Lemma raises_of_unreadable (conns : list conn) (row : conn) :
  In row conns -> unreadable row = true ->
  scan_conns conns = Raise IndexError.
Proof.
  intros Hin Hu. unfold scan_conns.
  destruct (scan_loop (mkPlayers "" "" [] []) conns) as [pl|e] eqn:E; simpl.
  - exfalso.
    assert (A : row_ok row = true).
    { apply (proj2 (Scan.scan_loop_ok (mkPlayers "" "" [] []) conns));
        eauto. }
    rewrite row_ok_unreadable, Hu in A. discriminate.
  - now rewrite (scan_loop_raises _ _ _ E).
Qed.

(** X4: [scan_conns] raises exactly when some row is unreadable, its
    connection type empty or a player's without [";"], and then it is an
    [IndexError]; the position of the row does not matter. *)
Theorem scan_conns_raises_iff (conns : list conn) :
  (scan_conns conns = Raise IndexError <->
   exists row, In row conns /\ unreadable row = true)
  /\ (forall e, scan_conns conns = Raise e -> e = IndexError).
Proof.
  assert (R : forall e, scan_conns conns = Raise e -> e = IndexError).
  { intros e. unfold scan_conns.
    destruct (scan_loop _ conns) as [pl|e'] eqn:E; simpl; [discriminate|].
    intros H. inversion H. subst. exact (scan_loop_raises _ _ _ E). }
  split; [|exact R]. split.
  - intros H. unfold scan_conns in H.
    destruct (scan_loop (mkPlayers "" "" [] []) conns) as [pl|e] eqn:E;
      [discriminate|]. clear H.
    assert (N : ~ forall row, In row conns -> row_ok row = true).
    { intros A. apply (Scan.scan_loop_ok (mkPlayers "" "" [] [])) in A.
      destruct A as [pl A]. congruence. }
    clear E R. induction conns as [|c rest IH].
    + exfalso. apply N. intros row [].
    + destruct (unreadable c) eqn:U.
      * exists c. simpl. auto.
      * destruct IH as [row [Hin Hu]].
        { intros A. apply N. intros row [E|Hin]; [|auto].
          subst row. rewrite row_ok_unreadable, U. reflexivity. }
        exists row. simpl. auto.
  - intros [row [Hin Hu]]. exact (raises_of_unreadable conns row Hin Hu).
Qed.

End Unreadable.

(** ** Events the handler cannot serve *)

Section Failures.

Variable py_int : string -> option Z.
Variable post_to_connection : post -> result unit.

Local Abbreviation handler := (lambda_handler py_int post_to_connection).
Local Abbreviation finish' := (finish post_to_connection).

(** X5: while the table holds an unreadable row, every route but
    [$connect] ends in the [IndexError] of the scan: nothing is posted and
    nothing is written, apart from the record that [$disconnect] removes
    before the scan. *)
Theorem unreadable_row_stops_handler (tbl : table) (ev : event) (row : conn) :
  route_key ev <> "$connect" ->
  In row tbl ->
  unreadable row = true ->
  (route_key ev = "$disconnect" -> connectionId row <> connection_id ev) ->
  handler tbl ev
  = mkRun (if (route_key ev =? "$disconnect")%string
           then delete_item tbl (connection_id ev) else tbl)
      [] (Raise IndexError).
Proof.
  intros Hc Hin Hu Hd.
  apply String.eqb_neq in Hc.
  rewrite (handler_rest py_int post_to_connection tbl ev Hc). cbv zeta.
  set (tbl1 := if (route_key ev =? "$disconnect")%string
               then delete_item tbl (connection_id ev) else tbl).
  assert (H1 : In row tbl1).
  { subst tbl1. destruct (String.eqb_spec (route_key ev) "$disconnect"); auto.
    apply Table.in_delete. auto. }
  unfold scan. now rewrite (Unreadable.raises_of_unreadable tbl1 row H1 Hu).
Qed.

Lemma handler_route (tbl : table) (ev : event) av p1 p2 m1 m2 :
  (route_key ev =? "$connect")%string = false ->
  (route_key ev =? "$disconnect")%string = false ->
  scan_conns (scan tbl) = Ok (av, p1, p2, m1, m2) ->
  handler tbl ev
  = finish' (scan tbl)
      (route py_int tbl ev av p1 p2 (mkData av p1 p2 m1 m2 None)).
Proof.
  intros Hc Hd Hs.
  rewrite (handler_rest py_int post_to_connection tbl ev Hc).
  rewrite Hd. cbv zeta. now rewrite Hs.
Qed.

(** X6: an event without a message.  [makePlay] of a connection that is
    not a player is answered "ineligible" all the same, for the message is
    not looked at before; [makePlay] of a player and [sendMessage] of
    anybody raise a [NameError], and nothing is written or posted. *)
Theorem missing_message (tbl : table) (cid : string)
    (av : list Z) (p1 p2 : string) (m1 m2 : list string) :
  scan_conns (scan tbl) = Ok (av, p1, p2, m1, m2) ->
  (cid = p1 \/ cid = p2 ->
   handler tbl (mkEvent "makePlay" cid None) = mkRun tbl [] (Raise NameError))
  /\ (cid <> p1 -> cid <> p2 ->
      handler tbl (mkEvent "makePlay" cid None) = mkRun tbl [] (Ok ineligible))
  /\ handler tbl (mkEvent "sendMessage" cid None)
     = mkRun tbl [] (Raise NameError).
Proof.
  intros Hs. split; [|split].
  - intros He.
    rewrite (handler_route tbl (mkEvent "makePlay" cid None) _ _ _ _ _
               eq_refl eq_refl Hs).
    unfold route. cbn [route_key connection_id message].
    change ("makePlay" =? "joinGame")%string with false.
    change ("makePlay" =? "makePlay")%string with true. cbv iota.
    unfold make_play.
    assert (E : negb (cid =? p1)%string && negb (cid =? p2)%string = false).
    { destruct He; subst; rewrite String.eqb_refl; simpl; auto.
      apply andb_false_r. }
    now rewrite E.
  - intros H1 H2.
    rewrite (handler_route tbl (mkEvent "makePlay" cid None) _ _ _ _ _
               eq_refl eq_refl Hs).
    unfold route. cbn [route_key connection_id message].
    change ("makePlay" =? "joinGame")%string with false.
    change ("makePlay" =? "makePlay")%string with true. cbv iota.
    now rewrite (make_play_ineligible py_int tbl cid None p1 p2 _ H1 H2).
  - now rewrite (handler_route tbl (mkEvent "sendMessage" cid None) _ _ _ _ _
                   eq_refl eq_refl Hs).
Qed.

(** [int] raises on the first move it cannot read. *)
Lemma ints_unparsable (ms : list string) (msg : string) :
  py_int msg = None -> ints py_int (ms ++ [msg]) = Raise ValueError.
Proof.
  intros H. induction ms as [|x xs IH]; simpl.
  - now rewrite H.
  - destruct (py_int x); [|reflexivity]. now rewrite IH.
Qed.

(** X7: a move of a player that [int] does not read, to a position
    string not played yet, raises a [ValueError]; the move is neither
    written nor shown to anybody. *)
Theorem unparsable_move_not_written (tbl : table) (cid msg : string)
    (av : list Z) (p1 p2 : string) (m1 m2 : list string) :
  scan_conns (scan tbl) = Ok (av, p1, p2, m1, m2) ->
  cid = p1 \/ cid = p2 ->
  Py.mem msg m1 = false ->
  Py.mem msg m2 = false ->
  py_int msg = None ->
  handler tbl (MakePlay cid msg) = mkRun tbl [] (Raise ValueError).
Proof.
  intros Hs He H1 H2 Hp.
  rewrite (handler_play py_int post_to_connection _ _ _ _ _ _ _ _ Hs).
  unfold make_play.
  assert (E : negb (cid =? p1)%string && negb (cid =? p2)%string = false).
  { destruct He; subst; rewrite String.eqb_refl; simpl; auto.
    apply andb_false_r. }
  rewrite E. cbn [p1Moves p2Moves]. rewrite H1, H2. simpl orb. cbv iota.
  destruct (record_move cid msg p1 p2 (mkData av p1 p2 m1 m2 None))
    as [[d' ms] arr] eqn:Hr.
  rewrite (record_move_arr py_int cid msg p1 p2 _ d' ms arr He Hr).
  cbn [p1Moves p2Moves]. now rewrite ints_unparsable.
Qed.

(** X8: [sendMessage] writes nothing and checks nobody: whoever the
    caller is, every connection of the table is posted the scanned game
    with the caller's id and message as the new message, in scan order,
    when the posts are delivered. *)
Theorem send_message_relayed (tbl : table) (cid msg : string)
    (av : list Z) (p1 p2 : string) (m1 m2 : list string) :
  scan_conns (scan tbl) = Ok (av, p1, p2, m1, m2) ->
  (forall c, In c tbl ->
     post_to_connection
       (mkPost (connectionId c) (mkData av p1 p2 m1 m2 (Some (cid, msg))))
     = Ok tt) ->
  handler tbl (SendMessage cid msg)
  = mkRun tbl
      (map (fun c => mkPost (connectionId c)
                       (mkData av p1 p2 m1 m2 (Some (cid, msg)))) tbl)
      (Ok success).
Proof.
  intros Hs Hall.
  rewrite (handler_route tbl (SendMessage cid msg) _ _ _ _ _
             eq_refl eq_refl Hs).
  unfold route, SendMessage. cbn [route_key connection_id message].
  change ("sendMessage" =? "joinGame")%string with false.
  change ("sendMessage" =? "makePlay")%string with false.
  change ("sendMessage" =? "sendMessage")%string with true. cbv iota.
  unfold send_message, set_newMessage, finish. cbn [avail p1Id p2Id p1Moves p2Moves].
  unfold scan. now rewrite (broadcast_all post_to_connection _ tbl Hall).
Qed.

End Failures.

(** ** Who is posted what, and what the caller is answered *)

Section Replies.

Variable py_int : string -> option Z.
Variable post_to_connection : post -> result unit.

Local Abbreviation handler := (lambda_handler py_int post_to_connection).
Local Abbreviation finish' := (finish post_to_connection).

(** A broadcast that does not raise has reached everybody. *)
Lemma broadcast_ok (d : data) (conns : list conn) (u : unit) :
  snd (broadcast post_to_connection d conns) = Ok u ->
  fst (broadcast post_to_connection d conns)
  = map (fun c => mkPost (connectionId c) d) conns.
Proof.
  induction conns as [|c rest IH]; simpl; auto.
  destruct (post_to_connection (mkPost (connectionId c) d)); simpl;
    [|discriminate].
  destruct (broadcast post_to_connection d rest) as [ps r]. simpl in *.
  intros H. now rewrite (IH H).
Qed.

(** Only [makePlay] returns early, and only with one of its two
    refusals. *)
Lemma route_returned (tbl t : table) (ev : event) (av : list Z)
    (p1 p2 : string) (d : data) (resp : response) :
  route py_int tbl ev av p1 p2 d = Returned t resp ->
  (route_key ev =? "makePlay")%string = true
  /\ t = tbl /\ (resp = ineligible \/ resp = already_made).
Proof.
  unfold route.
  destruct (route_key ev =? "joinGame")%string.
  { unfold join_game. destruct (Py.memZ 0 av || Py.memZ 1 av);
      [|discriminate]. destruct av; discriminate. }
  destruct (route_key ev =? "makePlay")%string.
  2: { destruct (route_key ev =? "sendMessage")%string; [|discriminate].
       unfold send_message. destruct (message ev); discriminate. }
  unfold make_play.
  destruct (negb _ && negb _).
  { intros H. inversion H. auto. }
  destruct (message ev) as [msg|]; [|discriminate].
  destruct (Py.mem msg (p1Moves d) || Py.mem msg (p2Moves d)).
  { intros H. inversion H. auto. }
  destruct (record_move _ _ _ _ _) as [[d' ms] arr].
  destruct (ints py_int arr); [|discriminate]. cbv zeta.
  destruct (decision (Py.set a) d' =? "")%string; simpl.
  - destruct ms; discriminate.
  - discriminate.
Qed.

(** X9: the posts of one invocation.  All carry the same snapshot; the
    connections posted to are the first ones of the table as it was
    scanned, after the record of a leaving connection was removed and
    before the route wrote anything, in scan order; [$connect] posts
    nothing; and on any other route the success response means that every
    scanned connection was posted. *)
Theorem posts_follow_scan (tbl : table) (ev : event) :
  let r := handler tbl ev in
  let scanned := if (route_key ev =? "$disconnect")%string
                 then delete_item tbl (connection_id ev) else tbl in
  (forall p q, In p (posts r) -> In q (posts r) -> Data p = Data q)
  /\ (exists rest,
        map connectionId scanned
        = (map ConnectionId (posts r) ++ rest)%list)
  /\ (route_key ev = "$connect" -> posts r = [])
  /\ (route_key ev <> "$connect" -> outcome r = Ok success ->
      map ConnectionId (posts r) = map connectionId scanned).
Proof.
  cbv zeta.
  set (scanned := if (route_key ev =? "$disconnect")%string
                  then delete_item tbl (connection_id ev) else tbl).
  destruct (String.eqb_spec (route_key ev) "$connect") as [Ec|Ec].
  { unfold lambda_handler. pose proof Ec as Ec0.
    apply String.eqb_eq in Ec. rewrite Ec. simpl.
    repeat split; try tauto. exists (map connectionId scanned). reflexivity. }
  pose proof Ec as Ec'. apply String.eqb_neq in Ec'.
  rewrite (handler_rest py_int post_to_connection tbl ev Ec'). cbv zeta.
  fold scanned.
  destruct (scan_conns (scan scanned)) as [[[[[av p1] p2] m1] m2]|e].
  2: { simpl. repeat split; try tauto; try discriminate.
       exists (map connectionId scanned). reflexivity. }
  destruct (route py_int scanned ev av p1 p2 (mkData av p1 p2 m1 m2 None))
    as [t resp|t d|t e] eqn:Er.
  - apply route_returned in Er. destruct Er as [_ [_ Hr]].
    simpl. repeat split; try tauto.
    + exists (map connectionId scanned). reflexivity.
    + intros _ H. inversion H. destruct Hr; subst; discriminate.
  - rewrite posts_finish.
    destruct (broadcast_prefix post_to_connection d (scan scanned))
      as [pre [rest [Es Ep]]].
    split; [|split; [|split]].
    + intros p q Hp Hq.
      rewrite (broadcast_data post_to_connection _ _ _ Hp).
      now rewrite (broadcast_data post_to_connection _ _ _ Hq).
    + exists (map connectionId rest). rewrite Ep. unfold scan in Es.
      rewrite Es, map_app, map_map. reflexivity.
    + tauto.
    + intros _ H. simpl in H.
      destruct (broadcast post_to_connection d (scan scanned)) as [ps r] eqn:Eb.
      simpl in H. destruct r as [u|e]; [|discriminate].
      pose proof (broadcast_ok d (scan scanned) u) as B.
      rewrite Eb in B. simpl in *. rewrite (B eq_refl), map_map. reflexivity.
  - simpl. repeat split; try tauto; try discriminate.
    exists (map connectionId scanned). reflexivity.
Qed.

(** X10: whatever the handler answers carries the status code 200, the
    refusals too; the answer is the success response unless the route is
    [makePlay] and the answer one of its two refusals, in which case
    nothing was posted. *)
Theorem responses_are_200 (tbl : table) (ev : event) (resp : response) :
  outcome (handler tbl ev) = Ok resp ->
  statusCode resp = 200
  /\ (resp = success
      \/ (route_key ev = "makePlay"
          /\ (resp = ineligible \/ resp = already_made)
          /\ posts (handler tbl ev) = [])).
Proof.
  destruct (route_key ev =? "$connect")%string eqn:Ec.
  { unfold lambda_handler. rewrite Ec. simpl. intros H. inversion H. auto. }
  rewrite (handler_rest py_int post_to_connection tbl ev Ec). cbv zeta.
  destruct (scan_conns _) as [[[[[av p1] p2] m1] m2]|e]; [|discriminate].
  intros H. destruct (outcome_finish post_to_connection _ _ _ H) as [E|[t E]].
  - subst resp. auto.
  - rewrite E. destruct (route_returned _ _ _ _ _ _ _ _ E) as [Em [_ Hr]].
    apply String.eqb_eq in Em.
    split; [destruct Hr; subst; reflexivity|]. right. auto.
Qed.

End Replies.

(** ** Writing the moves and reading them back *)

Module Codec.

Lemma no_char_app (c : ascii) (a b : string) :
  no_char c (a ++ b) = no_char c a && no_char c b.
Proof.
  induction a as [|x a IH]; simpl; auto.
  rewrite IH. now rewrite andb_assoc.
Qed.

Lemma truthy_app (a b : string) :
  Py.truthy (a ++ b) = Py.truthy a || Py.truthy b.
Proof. destruct a; reflexivity. Qed.

(** Splitting stops at the first separator. *)
Lemma split_app (sep : ascii) (x rest : string) :
  no_char sep x = true ->
  Py.split sep (x ++ String sep rest) = x :: Py.split sep rest.
Proof.
  induction x as [|c x IH]; simpl.
  - intros _. now rewrite Ascii.eqb_refl.
  - destruct (Ascii.eqb c sep); simpl; [discriminate|].
    intros H. now rewrite (IH H).
Qed.

(** [split] undoes [join] on pieces without the separator. *)
Lemma split_join (sep : ascii) (l : list string) :
  l <> [] ->
  Forall (fun m => no_char sep m = true) l ->
  Py.split sep (Py.join (String sep "") l) = l.
Proof.
  induction l as [|x l IH]; [congruence|].
  intros _ Hl. inversion Hl as [|y ys Hx Hxs]; subst.
  destruct l as [|y l].
  - simpl. now apply Unreadable.split_no_char.
  - change (Py.join (String sep "") (x :: y :: l))
      with (x ++ String sep (Py.join (String sep "") (y :: l))).
    rewrite (split_app sep x _ Hx). f_equal. apply IH; [discriminate | auto].
Qed.

Lemma no_char_join (c : ascii) (sep : string) (l : list string) :
  no_char c sep = true ->
  Forall (fun m => no_char c m = true) l ->
  no_char c (Py.join sep l) = true.
Proof.
  intros Hs. induction l as [|x l IH]; intros Hl; [reflexivity|].
  inversion Hl as [|y ys Hx Hxs]; subst.
  destruct l as [|y l]; [exact Hx|].
  change (Py.join sep (x :: y :: l)) with (x ++ sep ++ Py.join sep (y :: l)).
  rewrite !no_char_app, Hx, Hs, (IH Hxs). reflexivity.
Qed.

Lemma truthy_join (sep : string) (x : string) (l : list string) :
  Py.truthy x = true -> Py.truthy (Py.join sep (x :: l)) = true.
Proof.
  intros H. destruct l as [|y l]; [exact H|].
  change (Py.join sep (x :: y :: l)) with (x ++ sep ++ Py.join sep (y :: l)).
  now rewrite truthy_app, H.
Qed.

Lemma clean_parts (m : string) :
  clean m = true ->
  Py.truthy m = true /\ no_char "," m = true /\ no_char ";" m = true.
Proof.
  unfold clean. rewrite !andb_true_iff. tauto.
Qed.

(** The part after the role tag is the joined moves, and they split back
    into the moves. *)
Lemma decode_moves (tag : ascii) (ms : list string) :
  Ascii.eqb tag ";" = false ->
  Forall (fun m => clean m = true) ms ->
  nth_error (Py.split ";" (String tag (String ";" (Py.join "," ms)))) 1
  = Some (Py.join "," ms)
  /\ (ms <> [] -> Py.truthy (Py.join "," ms) = true
                  /\ Py.split "," (Py.join "," ms) = ms).
Proof.
  intros Ht Hc.
  assert (Hsemi : Forall (fun m => no_char ";" m = true) ms).
  { eapply Forall_impl; [|exact Hc]. intros m Hm.
    now apply clean_parts in Hm. }
  assert (Hcomma : Forall (fun m => no_char "," m = true) ms).
  { eapply Forall_impl; [|exact Hc]. intros m Hm.
    now apply clean_parts in Hm. }
  split.
  - change (String tag (String ";" (Py.join "," ms)))
      with (String tag "" ++ String ";" (Py.join "," ms)).
    rewrite split_app by (simpl; now rewrite Ht).
    rewrite Unreadable.split_no_char by (now apply no_char_join).
    reflexivity.
  - intros Hne. split.
    + destruct ms as [|x l]; [congruence|]. apply truthy_join.
      inversion Hc; subst. now apply clean_parts.
    + now apply (split_join ","%char).
Qed.

Lemma scan_row_encoded_p1 (acc : players) (k : string) (ms : list string) :
  Forall (fun m => clean m = true) ms ->
  scan_row acc (mkConn k ("0;" ++ Py.join "," ms))
  = Ok (mkPlayers k (pl_p2_id acc)
          (match ms with [] => pl_p1_moves acc | _ => ms end)
          (pl_p2_moves acc)).
Proof.
  intros Hc. destruct (decode_moves "0" ms eq_refl Hc) as [E R].
  unfold scan_row. cbn [connType connectionId].
  change ("0;" ++ Py.join "," ms) with (String "0" (String ";" (Py.join "," ms))).
  cbv iota. cbn [Ascii.eqb Bool.eqb andb]. rewrite E.
  destruct ms as [|x l]; [reflexivity|].
  destruct R as [T S]; [discriminate|]. now rewrite T, S.
Qed.

Lemma scan_row_encoded_p2 (acc : players) (k : string) (ms : list string) :
  Forall (fun m => clean m = true) ms ->
  scan_row acc (mkConn k ("1;" ++ Py.join "," ms))
  = Ok (mkPlayers (pl_p1_id acc) k (pl_p1_moves acc)
          (match ms with [] => pl_p2_moves acc | _ => ms end)).
Proof.
  intros Hc. destruct (decode_moves "1" ms eq_refl Hc) as [E R].
  unfold scan_row. cbn [connType connectionId].
  change ("1;" ++ Py.join "," ms) with (String "1" (String ";" (Py.join "," ms))).
  cbv iota. cbn [Ascii.eqb Bool.eqb andb]. rewrite E.
  destruct ms as [|x l]; [reflexivity|].
  destruct R as [T S]; [discriminate|]. now rewrite T, S.
Qed.

(** X11: the record [makePlay] writes for a player, the role tag, [";"]
    and the moves joined by [","], is read back by the scan as the same
    moves, whenever no move is empty or holds a separator.  A record
    without moves leaves the moves found so far in place. *)
Theorem moves_round_trip (acc : players) (k : string) (ms : list string) :
  Forall (fun m => clean m = true) ms ->
  scan_row acc (mkConn k ("0;" ++ Py.join "," ms))
  = Ok (mkPlayers k (pl_p2_id acc)
          (match ms with [] => pl_p1_moves acc | _ => ms end)
          (pl_p2_moves acc))
  /\ scan_row acc (mkConn k ("1;" ++ Py.join "," ms))
     = Ok (mkPlayers (pl_p1_id acc) k (pl_p1_moves acc)
             (match ms with [] => pl_p2_moves acc | _ => ms end)).
Proof.
  intros Hc. split.
  - now apply scan_row_encoded_p1.
  - now apply scan_row_encoded_p2.
Qed.

End Codec.

Lemma moves_round_trip_witness :
  Forall (fun m => clean m = true) ["0"; "4"; "8"]
  /\ scan_row (mkPlayers "" "B" [] ["3"]) (mkConn "A" "0;0,4,8")
     = Ok (mkPlayers "A" "B" ["0"; "4"; "8"] ["3"]).
Proof.
  assert (H : Forall (fun m => clean m = true) ["0"; "4"; "8"]).
  { repeat (apply Forall_cons; [reflexivity|]). apply Forall_nil. }
  split; [exact H|].
  exact (proj1 (Codec.moves_round_trip (mkPlayers "" "B" [] ["3"]) "A"
                  ["0"; "4"; "8"] H)).
Defined.

(** ** The scan of a table that holds a game *)

Module Game.

Lemma row_eta (c : conn) : c = mkConn (connectionId c) (connType c).
Proof. destruct c; reflexivity. Qed.

(** Once the moves of player one are found, further rows of player one
    tell the same. *)
Lemma moves_kept_p1 (m1 : list string) (l : list conn) :
  Forall (fun m => clean m = true) m1 ->
  (forall row, In row l -> role_of (connType row) = Some PlayerOne ->
     connType row = "0;" ++ Py.join "," m1) ->
  forall acc pl, scan_loop acc l = Ok pl ->
    pl_p1_moves acc = m1 -> pl_p1_moves pl = m1.
Proof.
  intros Hc. induction l as [|c l IH]; intros Henc acc pl H Hacc; simpl in H.
  - inversion H. now subst.
  - destruct (scan_row acc c) as [a|e] eqn:Ea; [|discriminate]. simpl in H.
    apply (IH (fun row Hin => Henc row (or_intror Hin)) a pl H).
    destruct (role_of (connType c)) as [[| |]|] eqn:Er.
    + rewrite (row_eta c), (Henc c (or_introl eq_refl) Er) in Ea.
      rewrite (Codec.scan_row_encoded_p1 acc _ m1 Hc) in Ea.
      inversion Ea. simpl. destruct m1; auto.
    + destruct (Scan.scan_row_not_p1 acc a c) as [_ E]; auto; congruence.
    + destruct (Scan.scan_row_not_p1 acc a c) as [_ E]; auto; congruence.
    + destruct (Scan.scan_row_not_p1 acc a c) as [_ E]; auto; congruence.
Qed.

Lemma moves_found_p1 (m1 : list string) (l : list conn) :
  Forall (fun m => clean m = true) m1 ->
  (forall row, In row l -> role_of (connType row) = Some PlayerOne ->
     connType row = "0;" ++ Py.join "," m1) ->
  forall acc pl, scan_loop acc l = Ok pl ->
    pl_p1_moves acc = [] ->
    (exists row, In row l /\ role_of (connType row) = Some PlayerOne) ->
    pl_p1_moves pl = m1.
Proof.
  intros Hc. induction l as [|c l IH]; intros Henc acc pl H Hacc Hex;
    simpl in H.
  - destruct Hex as [row [[] _]].
  - destruct (scan_row acc c) as [a|e] eqn:Ea; [|discriminate]. simpl in H.
    destruct (role_of (connType c)) as [r|] eqn:Er;
      [destruct r|].
    + apply (moves_kept_p1 m1 l Hc (fun row Hin => Henc row (or_intror Hin))
               a pl H).
      rewrite (row_eta c), (Henc c (or_introl eq_refl) Er) in Ea.
      rewrite (Codec.scan_row_encoded_p1 acc _ m1 Hc) in Ea.
      inversion Ea. simpl. destruct m1; auto.
    + apply (IH (fun row Hin => Henc row (or_intror Hin)) a pl H).
      * destruct (Scan.scan_row_not_p1 acc a c) as [_ E]; auto; congruence.
      * destruct Hex as [row [[E|Hin] Hr]]; [subst; congruence | eauto].
    + apply (IH (fun row Hin => Henc row (or_intror Hin)) a pl H).
      * destruct (Scan.scan_row_not_p1 acc a c) as [_ E]; auto; congruence.
      * destruct Hex as [row [[E|Hin] Hr]]; [subst; congruence | eauto].
    + apply (IH (fun row Hin => Henc row (or_intror Hin)) a pl H).
      * destruct (Scan.scan_row_not_p1 acc a c) as [_ E]; auto; congruence.
      * destruct Hex as [row [[E|Hin] Hr]]; [subst; congruence | eauto].
Qed.

Lemma moves_kept_p2 (m2 : list string) (l : list conn) :
  Forall (fun m => clean m = true) m2 ->
  (forall row, In row l -> role_of (connType row) = Some PlayerTwo ->
     connType row = "1;" ++ Py.join "," m2) ->
  forall acc pl, scan_loop acc l = Ok pl ->
    pl_p2_moves acc = m2 -> pl_p2_moves pl = m2.
Proof.
  intros Hc. induction l as [|c l IH]; intros Henc acc pl H Hacc; simpl in H.
  - inversion H. now subst.
  - destruct (scan_row acc c) as [a|e] eqn:Ea; [|discriminate]. simpl in H.
    apply (IH (fun row Hin => Henc row (or_intror Hin)) a pl H).
    destruct (role_of (connType c)) as [[| |]|] eqn:Er.
    + destruct (Scan.scan_row_not_p2 acc a c) as [_ E]; auto; congruence.
    + rewrite (row_eta c), (Henc c (or_introl eq_refl) Er) in Ea.
      rewrite (Codec.scan_row_encoded_p2 acc _ m2 Hc) in Ea.
      inversion Ea. simpl. destruct m2; auto.
    + destruct (Scan.scan_row_not_p2 acc a c) as [_ E]; auto; congruence.
    + destruct (Scan.scan_row_not_p2 acc a c) as [_ E]; auto; congruence.
Qed.

Lemma moves_found_p2 (m2 : list string) (l : list conn) :
  Forall (fun m => clean m = true) m2 ->
  (forall row, In row l -> role_of (connType row) = Some PlayerTwo ->
     connType row = "1;" ++ Py.join "," m2) ->
  forall acc pl, scan_loop acc l = Ok pl ->
    pl_p2_moves acc = [] ->
    (exists row, In row l /\ role_of (connType row) = Some PlayerTwo) ->
    pl_p2_moves pl = m2.
Proof.
  intros Hc. induction l as [|c l IH]; intros Henc acc pl H Hacc Hex;
    simpl in H.
  - destruct Hex as [row [[] _]].
  - destruct (scan_row acc c) as [a|e] eqn:Ea; [|discriminate]. simpl in H.
    destruct (role_of (connType c)) as [r|] eqn:Er;
      [destruct r|].
    + apply (IH (fun row Hin => Henc row (or_intror Hin)) a pl H).
      * destruct (Scan.scan_row_not_p2 acc a c) as [_ E]; auto; congruence.
      * destruct Hex as [row [[E|Hin] Hr]]; [subst; congruence | eauto].
    + apply (moves_kept_p2 m2 l Hc (fun row Hin => Henc row (or_intror Hin))
               a pl H).
      rewrite (row_eta c), (Henc c (or_introl eq_refl) Er) in Ea.
      rewrite (Codec.scan_row_encoded_p2 acc _ m2 Hc) in Ea.
      inversion Ea. simpl. destruct m2; auto.
    + apply (IH (fun row Hin => Henc row (or_intror Hin)) a pl H).
      * destruct (Scan.scan_row_not_p2 acc a c) as [_ E]; auto; congruence.
      * destruct Hex as [row [[E|Hin] Hr]]; [subst; congruence | eauto].
    + apply (IH (fun row Hin => Henc row (or_intror Hin)) a pl H).
      * destruct (Scan.scan_row_not_p2 acc a c) as [_ E]; auto; congruence.
      * destruct Hex as [row [[E|Hin] Hr]]; [subst; congruence | eauto].
Qed.

End Game.

Section GameScan.

Variable py_int : string -> option Z.

Lemma moves_ok_clean (tbl : table) (m1 m2 : list string) :
  moves_ok py_int tbl m1 m2 ->
  Forall (fun m => clean m = true) m1 /\ Forall (fun m => clean m = true) m2.
Proof.
  intros [_ [Hf _]]. apply Forall_app in Hf. destruct Hf as [H1 H2].
  split; eapply Forall_impl; try eassumption; simpl; tauto.
Qed.

(** What the scan finds in a sound table that holds the moves [m1] and
    [m2]: the holder of each player role with its moves, or nobody and no
    moves. *)
Lemma scan_of_game (tbl : table) (m1 m2 : list string) :
  registry_inv tbl ->
  moves_ok py_int tbl m1 m2 ->
  exists p1 p2 m1' m2',
    scan_conns (scan tbl) = Ok (avail_of p1 p2, p1, p2, m1', m2')
    /\ ((holds tbl p1 PlayerOne /\ p1 <> "" /\ m1' = m1)
        \/ (~ occupied tbl PlayerOne /\ p1 = "" /\ m1' = []))
    /\ ((holds tbl p2 PlayerTwo /\ p2 <> "" /\ m2' = m2)
        \/ (~ occupied tbl PlayerTwo /\ p2 = "" /\ m2' = [])).
Proof.
  intros Hinv Hm. pose proof Hinv as [_ [Hwf _]].
  destruct (moves_ok_clean _ _ _ Hm) as [C1 C2].
  destruct Hm as [_ [_ [E1 E2]]].
  assert (Hok : forall row, In row tbl -> row_ok row = true)
    by (intros row Hin; apply (Hwf row Hin)).
  destruct (proj1 (Scan.scan_loop_ok (mkPlayers "" "" [] []) tbl) Hok)
    as [pl Hpl].
  pose proof (scan_conns_of_loop _ _ Hpl) as Hs.
  pose proof (Registry.inv_named tbl Hinv) as Hn.
  exists (pl_p1_id pl), (pl_p2_id pl), (pl_p1_moves pl), (pl_p2_moves pl).
  split; [exact Hs|].
  destruct (Join.scan_conns_players _ _ _ _ _ _ Hs) as [_ [_ [P1 P2]]].
  split.
  - destruct P1 as [[Ei [Em Ho]]|Hh]; [right; auto | left].
    split; [exact Hh|]. split.
    + apply (named_holder tbl _ PlayerOne Hn Hh). discriminate.
    + apply (Game.moves_found_p1 m1 tbl C1 E1 _ _ Hpl eq_refl).
      destruct Hh as [row [Hin [_ Hr]]]. eauto.
  - destruct P2 as [[Ei [Em Ho]]|Hh]; [right; auto | left].
    split; [exact Hh|]. split.
    + apply (named_holder tbl _ PlayerTwo Hn Hh). discriminate.
    + apply (Game.moves_found_p2 m2 tbl C2 E2 _ _ Hpl eq_refl).
      destruct Hh as [row [Hin [_ Hr]]]. eauto.
Qed.

(** Fewer player rows, same game. *)
Lemma moves_ok_shrink (t t' : table) (m1 m2 : list string) :
  moves_ok py_int t m1 m2 ->
  (forall row, In row t' ->
     role_of (connType row) = Some PlayerOne
     \/ role_of (connType row) = Some PlayerTwo -> In row t) ->
  moves_ok py_int t' m1 m2.
Proof.
  intros [Hn [Hf [E1 E2]]] Hsub. repeat split; auto.
Qed.

Lemma moves_ok_spectator (tbl : table) (k : string) (m1 m2 : list string) :
  moves_ok py_int tbl m1 m2 -> moves_ok py_int (upsert tbl k "2") m1 m2.
Proof.
  intros H. apply (moves_ok_shrink tbl); auto.
  intros row Hin Hr. destruct (Table.in_upsert tbl k "2" row Hin) as [E|Ht];
    auto.
  subst row. destruct Hr; discriminate.
Qed.

Lemma moves_ok_delete (tbl : table) (k : string) (m1 m2 : list string) :
  moves_ok py_int tbl m1 m2 -> moves_ok py_int (delete_item tbl k) m1 m2.
Proof.
  intros H. apply (moves_ok_shrink tbl); auto.
  intros row Hin _. apply Table.in_delete in Hin. tauto.
Qed.

(** A fresh move goes between the two sequences without a repetition. *)
Lemma nodup_insert (a b : list string) (x : string) :
  NoDup (a ++ b) -> ~ In x a -> ~ In x b -> NoDup (a ++ x :: b).
Proof.
  induction a as [|y a IH]; simpl; intros Hn Ha Hb.
  - now constructor.
  - inversion Hn as [|z zs Hy Hys]; subst. constructor.
    + intros Hin. apply in_app_or in Hin. destruct Hin as [Hin|[E|Hin]].
      * apply Hy, in_or_app. auto.
      * subst. tauto.
      * apply Hy, in_or_app. auto.
    + apply IH; tauto.
Qed.

Lemma moves_ok_join_p1 (tbl : table) (cid : string) (m1 m2 : list string) :
  moves_ok py_int tbl m1 m2 ->
  ~ occupied tbl PlayerOne ->
  moves_ok py_int (upsert tbl cid "0;") [] m2.
Proof.
  intros [Hn [Hf [E1 E2]]] Ho. split; [|split; [|split]].
  - simpl. now apply NoDup_app_remove_l in Hn.
  - simpl. now apply Forall_app in Hf.
  - intros row Hin Hr. destruct (Table.in_upsert tbl cid "0;" row Hin)
      as [E|Ht]; [now subst|].
    exfalso. exact (Join.not_occupied tbl PlayerOne row Ho Ht Hr).
  - intros row Hin Hr. destruct (Table.in_upsert tbl cid "0;" row Hin)
      as [E|Ht]; [subst; discriminate | auto].
Qed.

Lemma moves_ok_join_p2 (tbl : table) (cid : string) (m1 m2 : list string) :
  moves_ok py_int tbl m1 m2 ->
  ~ occupied tbl PlayerTwo ->
  moves_ok py_int (upsert tbl cid "1;") m1 [].
Proof.
  intros [Hn [Hf [E1 E2]]] Ho. split; [|split; [|split]].
  - rewrite app_nil_r. now apply NoDup_app_remove_r in Hn.
  - rewrite app_nil_r. now apply Forall_app in Hf.
  - intros row Hin Hr. destruct (Table.in_upsert tbl cid "1;" row Hin)
      as [E|Ht]; [subst; discriminate | auto].
  - intros row Hin Hr. destruct (Table.in_upsert tbl cid "1;" row Hin)
      as [E|Ht]; [now subst|].
    exfalso. exact (Join.not_occupied tbl PlayerTwo row Ho Ht Hr).
Qed.

End GameScan.

Section GameSteps.

Variable py_int : string -> option Z.

Lemma moves_ok_play_p1 (tbl : table) (cid msg : string)
    (m1 m2 m2s : list string) :
  registry_inv tbl ->
  moves_ok py_int tbl m1 m2 ->
  holds tbl cid PlayerOne ->
  m2s = m2 \/ (~ occupied tbl PlayerTwo /\ m2s = []) ->
  ~ In msg m1 -> ~ In msg m2s ->
  clean msg = true -> py_int msg <> None ->
  moves_ok py_int (upsert tbl cid ("0;" ++ Py.join "," (m1 ++ [msg])))
    (m1 ++ [msg]) m2s.
Proof.
  intros [Hnd [_ [A1 _]]] [Hn [Hf [E1 E2]]] Hh H2 N1 N2 Hc Hp.
  apply Forall_app in Hf. destruct Hf as [F1 F2].
  assert (Hn' : NoDup (m1 ++ m2s)).
  { destruct H2 as [E|[_ E]]; subst m2s; auto.
    rewrite app_nil_r. now apply NoDup_app_remove_r in Hn. }
  assert (F2' : Forall (fun m => clean m = true /\ py_int m <> None) m2s).
  { destruct H2 as [E|[_ E]]; subst m2s; auto. }
  split; [|split; [|split]].
  - rewrite <- app_assoc. simpl. now apply nodup_insert.
  - apply Forall_app. split; auto. apply Forall_app. split; auto.
  - intros row Hin Hr.
    destruct (Table.in_upsert_nodup tbl cid _ row Hnd Hin) as [E|[Ht Hk]];
      [now subst|].
    exfalso. apply Hk. apply A1; [|exact Hh]. exists row. auto.
  - intros row Hin Hr.
    destruct (Table.in_upsert_nodup tbl cid _ row Hnd Hin) as [E|[Ht Hk]];
      [subst; discriminate|].
    destruct H2 as [E|[Ho E]]; subst m2s; auto.
    exfalso. exact (Join.not_occupied tbl PlayerTwo row Ho Ht Hr).
Qed.

Lemma moves_ok_play_p2 (tbl : table) (cid msg : string)
    (m1 m2 m1s : list string) :
  registry_inv tbl ->
  moves_ok py_int tbl m1 m2 ->
  holds tbl cid PlayerTwo ->
  m1s = m1 \/ (~ occupied tbl PlayerOne /\ m1s = []) ->
  ~ In msg m1s -> ~ In msg m2 ->
  clean msg = true -> py_int msg <> None ->
  moves_ok py_int (upsert tbl cid ("1;" ++ Py.join "," (m2 ++ [msg])))
    m1s (m2 ++ [msg]).
Proof.
  intros [Hnd [_ [_ A2]]] [Hn [Hf [E1 E2]]] Hh H1 N1 N2 Hc Hp.
  apply Forall_app in Hf. destruct Hf as [F1 F2].
  assert (Hn' : NoDup (m1s ++ m2)).
  { destruct H1 as [E|[_ E]]; subst m1s; auto.
    simpl. now apply NoDup_app_remove_l in Hn. }
  assert (F1' : Forall (fun m => clean m = true /\ py_int m <> None) m1s).
  { destruct H1 as [E|[_ E]]; subst m1s; auto. }
  split; [|split; [|split]].
  - rewrite app_assoc. apply NoDup_rev in Hn'. rewrite rev_app_distr in Hn'.
    rewrite <- (rev_involutive ((m1s ++ m2) ++ [msg])). apply NoDup_rev.
    rewrite rev_app_distr. simpl. constructor; [|now rewrite rev_app_distr].
    rewrite <- in_rev. intros Hin. apply in_app_or in Hin. tauto.
  - apply Forall_app. split; auto. apply Forall_app. split; auto.
  - intros row Hin Hr.
    destruct (Table.in_upsert_nodup tbl cid _ row Hnd Hin) as [E|[Ht Hk]];
      [subst; discriminate|].
    destruct H1 as [E|[Ho E]]; subst m1s; auto.
    exfalso. exact (Join.not_occupied tbl PlayerOne row Ho Ht Hr).
  - intros row Hin Hr.
    destruct (Table.in_upsert_nodup tbl cid _ row Hnd Hin) as [E|[Ht Hk]];
      [now subst|].
    exfalso. apply Hk. apply A2; [|exact Hh]. exists row. auto.
Qed.

Lemma mem_In_false (x : string) (l : list string) :
  Py.mem x l = false -> ~ In x l.
Proof.
  intros H Hin. apply (mem_In x l) in Hin. congruence.
Qed.

(** The moves [int] has read were all readable. *)
Lemma ints_ok_all (arr : list string) (l : list Z) :
  ints py_int arr = Ok l -> forall m, In m arr -> py_int m <> None.
Proof.
  revert l. induction arr as [|x xs IH]; simpl; intros l H m Hm; [tauto|].
  destruct (py_int x) as [n|] eqn:Ex; [|discriminate].
  destruct (ints py_int xs) as [ns|e]; [|discriminate].
  destruct Hm as [E|Hm]; [subst; congruence | eauto].
Qed.

(** What [makePlay] writes when it writes a move. *)
Lemma make_play_written (tbl : table) (cid : string) (m : option string)
    (p1 p2 : string) (d : data) :
  let t := match make_play py_int tbl cid m p1 p2 d with
           | Returned t _ | Continue t _ | Raised t _ => t
           end in
  t = tbl
  \/ t = update_item (update_item tbl p1 "2") p2 "2"
  \/ exists msg arr l,
       m = Some msg
       /\ Py.mem msg (p1Moves d) = false
       /\ Py.mem msg (p2Moves d) = false
       /\ ints py_int arr = Ok l
       /\ ((cid = p2 /\ arr = (p2Moves d ++ [msg])%list
            /\ t = update_item tbl cid ("1;" ++ Py.join "," arr))
           \/ (cid = p1 /\ cid <> p2 /\ arr = (p1Moves d ++ [msg])%list
               /\ t = update_item tbl cid ("0;" ++ Py.join "," arr))).
Proof.
  unfold make_play.
  destruct (negb (cid =? p1)%string && negb (cid =? p2)%string);
    [now left|].
  destruct m as [msg|]; [|now left].
  destruct (Py.mem msg (p1Moves d)) eqn:M1; [now left|].
  destruct (Py.mem msg (p2Moves d)) eqn:M2; [now left|]. simpl orb. cbv iota.
  destruct (record_move cid msg p1 p2 d) as [[d' ms] arr] eqn:Hr.
  destruct (ints py_int arr) as [l|e] eqn:Hi; [|now left].
  cbv zeta.
  destruct (decision (Py.set l) d' =? "")%string; simpl.
  - revert Hr. unfold record_move.
    destruct (String.eqb_spec cid p1) as [E1|E1];
      destruct (String.eqb_spec cid p2) as [E2|E2];
      intros H; inversion H; subst ms arr; simpl; auto;
      right; right; exists msg; eexists; exists l;
      (split; [reflexivity|]); (split; [exact M1|]); (split; [exact M2|]);
      (split; [exact Hi|]); auto.
  - right. now left.
Qed.

End GameSteps.

(** ** The game is kept by every invocation *)

Section GameInv.

Variable py_int : string -> option Z.
Variable post_to_connection : post -> result unit.

(** Python's [int] reads no empty string and none with [","] or [";"]. *)
Hypothesis int_clean : forall s n, py_int s = Some n -> clean s = true.

Local Abbreviation handler := (lambda_handler py_int post_to_connection).

Lemma readable_clean (m : string) : py_int m <> None -> clean m = true.
Proof.
  destruct (py_int m) as [n|] eqn:E; [|congruence].
  intros _. exact (int_clean m n E).
Qed.

Lemma game_inv_empty : game_inv py_int [].
Proof.
  split; [apply Registry.inv_empty|]. exists [], [].
  split; [constructor|]. split; [constructor|].
  split; intros row [].
Qed.

Lemma handler_game_inv (tbl : table) (ev : event) :
  game_inv py_int tbl ->
  connection_id ev <> "" ->
  game_inv py_int (store (handler tbl ev)).
Proof.
  intros [Hreg [m1 [m2 Hm]]] Hc.
  split; [now apply handler_inv|].
  destruct (route_key ev =? "$connect")%string eqn:Ec.
  { unfold lambda_handler. rewrite Ec. simpl. exists m1, m2.
    now apply moves_ok_spectator. }
  rewrite (handler_rest py_int post_to_connection tbl ev Ec). cbv zeta.
  set (tbl1 := if (route_key ev =? "$disconnect")%string
               then delete_item tbl (connection_id ev) else tbl).
  assert (R1 : registry_inv tbl1).
  { subst tbl1. destruct (route_key ev =? "$disconnect")%string; auto.
    now apply Registry.inv_delete. }
  assert (M1 : moves_ok py_int tbl1 m1 m2).
  { subst tbl1. destruct (route_key ev =? "$disconnect")%string; auto.
    now apply moves_ok_delete. }
  clearbody tbl1. clear Hreg Hm tbl.
  destruct (scan_of_game py_int tbl1 m1 m2 R1 M1)
    as [p1 [p2 [m1s [m2s [Hs [C1 C2]]]]]].
  rewrite Hs, store_finish.
  assert (S1 : m1s = m1 \/ (~ occupied tbl1 PlayerOne /\ m1s = []))
    by (destruct C1 as [[_ [_ E]]|[Ho [_ E]]]; auto).
  assert (S2 : m2s = m2 \/ (~ occupied tbl1 PlayerTwo /\ m2s = []))
    by (destruct C2 as [[_ [_ E]]|[Ho [_ E]]]; auto).
  unfold route.
  destruct (route_key ev =? "joinGame")%string.
  { rewrite join_game_cases.
    destruct (Py.truthy p1) eqn:T1; simpl.
    - destruct (Py.truthy p2) eqn:T2; simpl; [eauto|].
      exists m1, []. unfold update_item.
      apply (moves_ok_join_p2 py_int tbl1 _ m1 m2 M1).
      destruct C2 as [[_ [N _]]|[Ho _]]; auto.
      apply truthy_empty in T2. contradiction.
    - exists [], m2. unfold update_item.
      apply (moves_ok_join_p1 py_int tbl1 _ m1 m2 M1).
      destruct C1 as [[_ [N _]]|[Ho _]]; auto.
      apply truthy_empty in T1. contradiction. }
  destruct (route_key ev =? "makePlay")%string.
  { pose proof (make_play_written py_int tbl1 (connection_id ev) (message ev)
                  p1 p2 (mkData (avail_of p1 p2) p1 p2 m1s m2s None)) as H.
    cbv zeta in H. cbn [p1Moves p2Moves] in H.
    destruct H as [H|[H|[msg [arr [l [_ [N1 [N2 [Hi H]]]]]]]]].
    - rewrite H. eauto.
    - rewrite H. exists m1, m2. unfold update_item.
      now apply moves_ok_spectator, moves_ok_spectator.
    - apply mem_In_false in N1. apply mem_In_false in N2.
      destruct H as [[E [Ea H]]|[E [_ [Ea H]]]]; rewrite H; subst arr.
      + assert (Hp : py_int msg <> None).
        { apply (ints_ok_all py_int _ _ Hi). apply in_or_app. simpl. auto. }
        destruct C2 as [[Hh [_ E2]]|[_ [E2 _]]]; [|congruence].
        subst m2s. exists m1s, (m2 ++ [msg])%list. unfold update_item.
        rewrite E. apply (moves_ok_play_p2 py_int tbl1 p2 msg m1 m2 m1s);
          auto. now apply readable_clean.
      + assert (Hp : py_int msg <> None).
        { apply (ints_ok_all py_int _ _ Hi). apply in_or_app. simpl. auto. }
        destruct C1 as [[Hh [_ E1]]|[_ [E1 _]]]; [|congruence].
        subst m1s. exists (m1 ++ [msg])%list, m2s. unfold update_item.
        rewrite E. apply (moves_ok_play_p1 py_int tbl1 p1 msg m1 m2 m2s);
          auto. now apply readable_clean. }
  destruct (route_key ev =? "sendMessage")%string.
  { unfold send_message. destruct (message ev); eauto. }
  eauto.
Qed.

Lemma run_events_game_inv (tbl : table) (evs : list event) :
  game_inv py_int tbl ->
  Forall (fun ev => connection_id ev <> "") evs ->
  game_inv py_int (run_events py_int post_to_connection tbl evs).
Proof.
  revert tbl. induction evs as [|ev rest IH]; intros tbl Hinv Hevs; simpl.
  - exact Hinv.
  - inversion Hevs as [|x xs Hx Hxs]; subst.
    apply IH; auto. now apply handler_game_inv.
Qed.

(** The scan of a table that holds a game: it does not raise, and no move
    is found twice. *)
Lemma game_scan (tbl : table) :
  game_inv py_int tbl ->
  exists av p1 p2 m1 m2,
    scan_conns (scan tbl) = Ok (av, p1, p2, m1, m2)
    /\ NoDup (m1 ++ m2)
    /\ Forall (fun m => clean m = true /\ py_int m <> None) (m1 ++ m2).
Proof.
  intros [Hreg [m1 [m2 Hm]]].
  destruct (scan_of_game py_int tbl m1 m2 Hreg Hm)
    as [p1 [p2 [m1s [m2s [Hs [C1 C2]]]]]].
  exists (avail_of p1 p2), p1, p2, m1s, m2s. split; [exact Hs|].
  destruct Hm as [Hn [Hf _]]. apply Forall_app in Hf. destruct Hf as [F1 F2].
  assert (S1 : m1s = m1 \/ m1s = [])
    by (destruct C1 as [[_ [_ E]]|[_ [_ E]]]; auto).
  assert (S2 : m2s = m2 \/ m2s = [])
    by (destruct C2 as [[_ [_ E]]|[_ [_ E]]]; auto).
  assert (N1 : NoDup m1) by (now apply NoDup_app_remove_r in Hn).
  assert (N2 : NoDup m2) by (now apply NoDup_app_remove_l in Hn).
  destruct S1 as [E1|E1]; destruct S2 as [E2|E2]; subst m1s m2s;
    rewrite ?app_nil_r; simpl; split; auto.
  - apply Forall_app. auto.
  - constructor.
Qed.

(** X12: from the empty table, whatever events connections with real
    ids send, the scan of the table reached does not raise, and the moves it
    finds are what [int] reads, free of separators, and pairwise distinct:
    no move string is held twice, by one player or by both. *)
Theorem moves_never_repeat (evs : list event) :
  Forall (fun ev => connection_id ev <> "") evs ->
  exists av p1 p2 m1 m2,
    scan_conns (scan (run_events py_int post_to_connection [] evs))
    = Ok (av, p1, p2, m1, m2)
    /\ NoDup (m1 ++ m2)
    /\ Forall (fun m => clean m = true /\ py_int m <> None) (m1 ++ m2).
Proof.
  intros Hevs. apply game_scan.
  apply run_events_game_inv; [apply game_inv_empty | exact Hevs].
Qed.

End GameInv.

(** ** The next scan after a move *)

Module Next.

Lemma in_upsert_kept (tbl : table) (k t : string) (row : conn) :
  In row tbl -> connectionId row <> k -> In row (upsert tbl k t).
Proof.
  induction tbl as [|c rest IH]; simpl; [tauto|].
  intros [H|H] Hk.
  - subst c. apply String.eqb_neq in Hk. rewrite Hk. now left.
  - destruct (connectionId c =? k)%string; simpl; auto.
Qed.

Lemma in_upsert_written (tbl : table) (k t : string) :
  In (mkConn k t) (upsert tbl k t).
Proof.
  induction tbl as [|c rest IH]; simpl; auto.
  destruct (connectionId c =? k)%string; simpl; auto.
Qed.

Lemma holds_written (tbl : table) (k t : string) (r : role) :
  role_of t = Some r -> holds (upsert tbl k t) k r.
Proof.
  intros Hr. exists (mkConn k t). split; [apply in_upsert_written|]. auto.
Qed.

Lemma holds_kept (tbl : table) (k t c : string) (r : role) :
  holds tbl c r -> c <> k -> holds (upsert tbl k t) c r.
Proof.
  intros [row [Hin [Hid Hr]]] Hk. exists row. split; auto.
  apply in_upsert_kept; auto. congruence.
Qed.

(** One connection is not both players. *)
Lemma one_seat (tbl : table) (c : string) :
  NoDup (map connectionId tbl) ->
  holds tbl c PlayerOne -> holds tbl c PlayerTwo -> False.
Proof.
  intros Hnd [r1 [I1 [E1 R1]]] [r2 [I2 [E2 R2]]].
  assert (E : r1 = r2)
    by (apply (Join.same_key_same_row tbl); auto; congruence).
  subst r2. congruence.
Qed.

End Next.

Section NextScan.

Variable py_int : string -> option Z.
Variable post_to_connection : post -> result unit.

Local Abbreviation handler := (lambda_handler py_int post_to_connection).

(** X13: a move that is written is what the next scan reads.  In a
    table that holds a game, after an accepted move that leaves the game in
    progress, the scan of the new table gives the snapshot that was just
    broadcast: the same players and offered roles, the move at the end of
    the acting player's moves, the other player's moves as they were. *)
Theorem played_move_is_scanned (tbl : table) (cid msg : string)
    (av : list Z) (p1 p2 : string) (m1 m2 : list string)
    (d' : data) (s : string) (arr : list string) (l : list Z) :
  game_inv py_int tbl ->
  clean msg = true ->
  cid <> "" ->
  scan_conns (scan tbl) = Ok (av, p1, p2, m1, m2) ->
  cid = p1 \/ cid = p2 ->
  Py.mem msg m1 = false ->
  Py.mem msg m2 = false ->
  record_move cid msg p1 p2 (mkData av p1 p2 m1 m2 None) = (d', Some s, arr) ->
  ints py_int arr = Ok l ->
  decision (Py.set l) d' = "" ->
  scan_conns (scan (store (handler tbl (MakePlay cid msg))))
  = Ok (avail d', p1Id d', p2Id d', p1Moves d', p2Moves d').
Proof.
  intros [Hreg [w1 [w2 Hm]]] Hc Hne Hs He N1 N2 Hr Hi Hd.
  destruct (accepted_run py_int post_to_connection tbl cid msg av p1 p2 m1 m2
              d' s arr l Hs He N1 N2 Hr Hi) as [Hg _].
  rewrite (Hg Hd), store_finish. clear Hg.
  assert (Hp : py_int msg <> None).
  { apply (ints_ok_all py_int _ _ Hi).
    rewrite (record_move_arr py_int _ _ _ _ _ _ _ _ He Hr).
    apply in_or_app. simpl. auto. }
  apply mem_In_false in N1. apply mem_In_false in N2.
  destruct (scan_of_game py_int tbl w1 w2 Hreg Hm)
    as [q1 [q2 [s1 [s2 [Hs' [C1 C2]]]]]].
  rewrite Hs in Hs'. inversion Hs'. subst av q1 q2 s1 s2. clear Hs'.
  pose proof Hreg as [Hnd [_ [A1 A2]]].
  assert (S1 : m1 = w1 \/ (~ occupied tbl PlayerOne /\ m1 = []))
    by (destruct C1 as [[_ [_ E]]|[Ho [_ E]]]; auto).
  assert (S2 : m2 = w2 \/ (~ occupied tbl PlayerTwo /\ m2 = []))
    by (destruct C2 as [[_ [_ E]]|[Ho [_ E]]]; auto).
  unfold record_move in Hr.
  destruct (String.eqb_spec cid p1) as [E1|E1];
    destruct (String.eqb_spec cid p2) as [E2|E2].
  - exfalso. subst p1 p2.
    destruct C1 as [[H1 _]|[_ [E _]]]; [|congruence].
    destruct C2 as [[H2 _]|[_ [E _]]]; [|congruence].
    exact (Next.one_seat tbl cid Hnd H1 H2).
  - (* player one moves *)
    inversion Hr. subst d' s arr. clear Hr. cbn [avail p1Id p2Id p1Moves p2Moves].
    subst p1.
    destruct C1 as [[H1 [_ Ew]]|[_ [E _]]]; [|congruence]. subst w1.
    set (t' := update_item tbl cid ("0;" ++ Py.join "," (m1 ++ [msg]))).
    assert (R' : registry_inv t').
    { apply (Registry.inv_upsert_player tbl cid _ PlayerOne); auto;
        first [ apply Registry.row_ok_p1
              | intros c Hh; exact (A1 c cid Hh H1) ]. }
    assert (M' : moves_ok py_int t' (m1 ++ [msg]) m2)
      by (apply (moves_ok_play_p1 py_int tbl cid msg m1 w2 m2); auto).
    destruct (scan_of_game py_int t' _ _ R' M')
      as [q1 [q2 [s1 [s2 [Hs' [D1 D2]]]]]].
    pose proof R' as [_ [_ [B1 B2]]].
    assert (Hnew : holds t' cid PlayerOne)
      by (apply Next.holds_written; reflexivity).
    destruct D1 as [[G1 [_ F1]]|[Ho _]];
      [|exfalso; apply Ho; now exists cid].
    assert (Q1 : q1 = cid) by exact (B1 q1 cid G1 Hnew).
    assert (Q2 : q2 = p2 /\ s2 = m2).
    { destruct C2 as [[H2 [Hn2 Ew]]|[Ho [Ep Em]]].
      - assert (K : holds t' p2 PlayerTwo)
          by (apply Next.holds_kept; auto).
        destruct D2 as [[G2 [_ F2]]|[Ho _]];
          [|exfalso; apply Ho; now exists p2].
        split; [exact (B2 q2 p2 G2 K) | exact F2].
      - destruct D2 as [[G2 _]|[_ [Eq Es]]]; [|subst; auto].
        exfalso. apply Registry.holds_upsert in G2.
        destruct G2 as [[_ G2]|G2]; [discriminate|].
        apply Ho. now exists q2. }
    destruct Q2 as [Q2 Q3]. unfold scan in *.
    etransitivity; [exact Hs'|]. simpl. congruence.
  - (* player two moves *)
    inversion Hr. subst d' s arr. clear Hr. cbn [avail p1Id p2Id p1Moves p2Moves].
    subst p2.
    destruct C2 as [[H2 [_ Ew]]|[_ [E _]]]; [|congruence]. subst w2.
    set (t' := update_item tbl cid ("1;" ++ Py.join "," (m2 ++ [msg]))).
    assert (R' : registry_inv t').
    { apply (Registry.inv_upsert_player tbl cid _ PlayerTwo); auto;
        first [ apply Registry.row_ok_p2
              | intros c Hh; exact (A2 c cid Hh H2) ]. }
    assert (M' : moves_ok py_int t' m1 (m2 ++ [msg]))
      by (apply (moves_ok_play_p2 py_int tbl cid msg w1 m2 m1); auto).
    destruct (scan_of_game py_int t' _ _ R' M')
      as [q1 [q2 [s1 [s2 [Hs' [D1 D2]]]]]].
    pose proof R' as [_ [_ [B1 B2]]].
    assert (Hnew : holds t' cid PlayerTwo)
      by (apply Next.holds_written; reflexivity).
    destruct D2 as [[G2 [_ F2]]|[Ho _]];
      [|exfalso; apply Ho; now exists cid].
    assert (Q2 : q2 = cid) by exact (B2 q2 cid G2 Hnew).
    assert (Q1 : q1 = p1 /\ s1 = m1).
    { destruct C1 as [[H1 [Hn1 Ew]]|[Ho [Ep Em]]].
      - assert (K : holds t' p1 PlayerOne)
          by (apply Next.holds_kept; auto).
        destruct D1 as [[G1 [_ F1]]|[Ho _]];
          [|exfalso; apply Ho; now exists p1].
        split; [exact (B1 q1 p1 G1 K) | exact F1].
      - destruct D1 as [[G1 _]|[_ [Eq Es]]]; [|subst; auto].
        exfalso. apply Registry.holds_upsert in G1.
        destruct G1 as [[_ G1]|G1]; [discriminate|].
        apply Ho. now exists q1. }
    destruct Q1 as [Q1 Q3]. unfold scan in *.
    etransitivity; [exact Hs'|]. simpl. congruence.
  - tauto.
Qed.

End NextScan.

Section NextGame.

Variable py_int : string -> option Z.
Variable post_to_connection : post -> result unit.

Local Abbreviation handler := (lambda_handler py_int post_to_connection).

(** X14: after a move that ends the game the table holds no game: in a
    sound registry the next scan finds no player and no move and offers
    all three roles, the snapshot that was broadcast. *)
Theorem finished_game_is_cleared (tbl : table) (cid msg : string)
    (av : list Z) (p1 p2 : string) (m1 m2 : list string)
    (d' : data) (s : string) (arr : list string) (l : list Z) :
  registry_inv tbl ->
  scan_conns (scan tbl) = Ok (av, p1, p2, m1, m2) ->
  cid = p1 \/ cid = p2 ->
  Py.mem msg m1 = false ->
  Py.mem msg m2 = false ->
  record_move cid msg p1 p2 (mkData av p1 p2 m1 m2 None) = (d', Some s, arr) ->
  ints py_int arr = Ok l ->
  decision (Py.set l) d' <> "" ->
  scan_conns (scan (store (handler tbl (MakePlay cid msg))))
  = Ok ([0; 1; 2], "", "", [], []).
Proof.
  intros Hreg Hs He N1 N2 Hr Hi Hd.
  destruct (accepted_run py_int post_to_connection tbl cid msg av p1 p2 m1 m2
              d' s arr l Hs He N1 N2 Hr Hi) as [_ Ht].
  rewrite (Ht Hd), store_finish. clear Ht. unfold update_item, scan.
  set (t' := upsert (upsert tbl p1 "2") p2 "2").
  assert (R' : registry_inv t')
    by now apply Registry.inv_upsert_spectator, Registry.inv_upsert_spectator.
  pose proof Hreg as [Hnd [_ [A1 A2]]].
  destruct (Join.scan_conns_players _ _ _ _ _ _ Hs) as [_ [_ [P1 P2]]].
  unfold scan in *.
  assert (Hold : forall row, In row t' ->
            role_of (connType row) <> Some Spectator ->
            In row tbl /\ connectionId row <> p1 /\ connectionId row <> p2).
  { intros row Hin Hr'.
    destruct (Table.in_upsert_nodup _ p2 "2" row
                (Table.nodup_upsert tbl p1 "2" Hnd) Hin) as [E|[Hin1 K2]].
    { subst row. exfalso. apply Hr'. reflexivity. }
    destruct (Table.in_upsert_nodup tbl p1 "2" row Hnd Hin1) as [E|[Hin0 K1]].
    { subst row. exfalso. apply Hr'. reflexivity. }
    auto. }
  assert (F1 : ~ occupied t' PlayerOne).
  { intros [c [row [Hin [_ Hr']]]].
    destruct (Hold row Hin) as [Hin0 [K1 _]]; [congruence|].
    destruct P1 as [[_ [_ Ho]]|Hh].
    - exact (Join.not_occupied tbl PlayerOne row Ho Hin0 Hr').
    - apply K1. apply A1; [|exact Hh]. exists row. auto. }
  assert (F2 : ~ occupied t' PlayerTwo).
  { intros [c [row [Hin [_ Hr']]]].
    destruct (Hold row Hin) as [Hin0 [_ K2]]; [congruence|].
    destruct P2 as [[_ [_ Ho]]|Hh].
    - exact (Join.not_occupied tbl PlayerTwo row Ho Hin0 Hr').
    - apply K2. apply A2; [|exact Hh]. exists row. auto. }
  pose proof R' as [_ [Hwf _]].
  assert (Hok : forall row, In row t' -> row_ok row = true)
    by (intros row Hin; apply (Hwf row Hin)).
  destruct (proj1 (Scan.scan_loop_ok (mkPlayers "" "" [] []) t') Hok)
    as [pl Hpl].
  pose proof (scan_conns_of_loop _ _ Hpl) as Hs'.
  destruct (Join.scan_conns_players _ _ _ _ _ _ Hs') as [_ [_ [Q1 Q2]]].
  destruct Q1 as [[E1 [M1 _]]|Hh]; [|exfalso; apply F1; eexists; exact Hh].
  destruct Q2 as [[E2 [M2 _]]|Hh]; [|exfalso; apply F2; eexists; exact Hh].
  rewrite Hs', E1, E2, M1, M2. reflexivity.
Qed.

(** X15: a connection that is already player one and joins again while
    player two is free is shown in both seats: the snapshot that is
    broadcast names it as player one and as player two, offers no player
    role and still lists its moves, although its record is ["1;"] by then.
    The same holds with the two roles exchanged. *)
Theorem rejoin_snapshot_names_caller_twice (tbl : table) (cid : string)
    (av : list Z) (m1 m2 : list string) :
  cid <> "" ->
  (scan_conns (scan tbl) = Ok (av, cid, "", m1, m2) ->
   get_item (store (handler tbl (JoinGame cid))) cid = Some "1;"
   /\ forall p, In p (posts (handler tbl (JoinGame cid))) ->
        Data p = mkData [2] cid cid m1 m2 None)
  /\ (scan_conns (scan tbl) = Ok (av, "", cid, m1, m2) ->
      get_item (store (handler tbl (JoinGame cid))) cid = Some "0;"
      /\ forall p, In p (posts (handler tbl (JoinGame cid))) ->
           Data p = mkData [2] cid cid m1 m2 None).
Proof.
  intros Hc. apply truthy_nonempty in Hc.
  split; intros Hs;
    destruct (Join.scan_conns_players _ _ _ _ _ _ Hs) as [Eav _];
    rewrite (handler_join py_int post_to_connection tbl cid _ _ _ _ _ Hs);
    rewrite Eav, join_game_cases; cbn [Py.truthy]; rewrite ?Hc; simpl negb;
    cbv iota; rewrite store_finish, (posts_finish post_to_connection);
    (split; [apply Table.get_item_same|]);
    intros p Hp; rewrite (broadcast_data post_to_connection _ _ _ Hp);
    unfold set_avail, set_p1Id, set_p2Id, avail_of; simpl; rewrite Hc;
    reflexivity.
Qed.

(** X16: a connection that holds no player role and joins is shown
    where the table has it.  In a table that holds a game, after it took
    the free seat of player one, or else of player two, the scan of the new
    table gives the snapshot that was just broadcast: the caller in that
    seat without moves, the other seat and its moves as they were, and the
    roles still free. *)
Theorem joined_seat_is_scanned (tbl : table) (cid : string)
    (av : list Z) (p1 p2 : string) (m1 m2 : list string) :
  game_inv py_int tbl ->
  cid <> "" ->
  ~ holds tbl cid PlayerOne ->
  ~ holds tbl cid PlayerTwo ->
  scan_conns (scan tbl) = Ok (av, p1, p2, m1, m2) ->
  let r := handler tbl (JoinGame cid) in
  (p1 = "" ->
   scan_conns (scan (store r)) = Ok (avail_of cid p2, cid, p2, m1, m2)
   /\ forall p, In p (posts r) ->
        Data p = mkData (avail_of cid p2) cid p2 m1 m2 None)
  /\ (p1 <> "" -> p2 = "" ->
      scan_conns (scan (store r)) = Ok (avail_of p1 cid, p1, cid, m1, m2)
      /\ forall p, In p (posts r) ->
           Data p = mkData (avail_of p1 cid) p1 cid m1 m2 None).
Proof.
  intros [Hreg [w1 [w2 Hm]]] Hc N1 N2 Hs r.
  pose proof Hc as Tc. apply truthy_nonempty in Tc.
  destruct (scan_of_game py_int tbl w1 w2 Hreg Hm)
    as [q1 [q2 [s1 [s2 [Hs' [C1 C2]]]]]].
  rewrite Hs in Hs'. inversion Hs'. subst av q1 q2 s1 s2. clear Hs'.
  assert (Er : r = finish post_to_connection (scan tbl)
                 (join_game tbl cid (avail_of p1 p2)
                    (mkData (avail_of p1 p2) p1 p2 m1 m2 None))).
  { subst r. now rewrite (handler_join py_int post_to_connection _ _ _ _ _ _ _ Hs). }
  rewrite join_game_cases in Er.
  split.
  - intros E1. subst p1. cbn [Py.truthy negb] in Er.
    destruct C1 as [[_ [N _]]|[Ho1 [_ Em1]]]; [congruence|]. subst m1.
    rewrite Er, store_finish, (posts_finish post_to_connection).
    split.
    2: { intros p Hp. rewrite (broadcast_data post_to_connection _ _ _ Hp).
         unfold set_avail, set_p1Id, avail_of. simpl. rewrite Tc.
         reflexivity. }
    unfold update_item, scan.
    set (t' := upsert tbl cid "0;").
    assert (R' : registry_inv t').
    { apply (Registry.inv_upsert_player tbl cid "0;" PlayerOne); auto.
      intros c Hh. exfalso. apply Ho1. now exists c. }
    pose proof (moves_ok_join_p1 py_int tbl cid w1 w2 Hm Ho1) as M'.
    fold t' in M'.
    destruct (scan_of_game py_int t' _ _ R' M')
      as [q1 [q2 [s1 [s2 [Hs' [D1 D2]]]]]].
    pose proof R' as [_ [_ [B1 B2]]].
    assert (Hnew : holds t' cid PlayerOne)
      by (apply Next.holds_written; reflexivity).
    destruct D1 as [[G1 [_ F1]]|[Ho _]];
      [|exfalso; apply Ho; now exists cid].
    assert (Q1 : q1 = cid) by exact (B1 q1 cid G1 Hnew).
    assert (Q2 : q2 = p2 /\ s2 = m2).
    { destruct C2 as [[H2 [Hn2 Ew]]|[Ho [Ep Em]]].
      - assert (K : holds t' p2 PlayerTwo).
        { apply Next.holds_kept; auto. intros E. subst p2. contradiction. }
        destruct D2 as [[G2 [_ F2]]|[Ho _]];
          [|exfalso; apply Ho; now exists p2].
        split; [exact (B2 q2 p2 G2 K) | congruence].
      - destruct D2 as [[G2 _]|[_ [Eq Es]]]; [|subst; auto].
        exfalso. apply Registry.holds_upsert in G2.
        destruct G2 as [[_ G2]|G2]; [discriminate|].
        apply Ho. now exists q2. }
    destruct Q2 as [Q2 Q3]. unfold scan in Hs'. rewrite Hs'. congruence.
  - intros E1 E2. subst p2. apply truthy_nonempty in E1.
    rewrite E1 in Er. cbn [Py.truthy negb] in Er.
    destruct C2 as [[_ [N _]]|[Ho2 [_ Em2]]]; [congruence|]. subst m2.
    rewrite Er, store_finish, (posts_finish post_to_connection).
    split.
    2: { intros p Hp. rewrite (broadcast_data post_to_connection _ _ _ Hp).
         unfold set_avail, set_p2Id, avail_of. simpl. rewrite E1, Tc.
         reflexivity. }
    unfold update_item, scan.
    set (t' := upsert tbl cid "1;").
    assert (R' : registry_inv t').
    { apply (Registry.inv_upsert_player tbl cid "1;" PlayerTwo); auto.
      intros c Hh. exfalso. apply Ho2. now exists c. }
    pose proof (moves_ok_join_p2 py_int tbl cid w1 w2 Hm Ho2) as M'.
    fold t' in M'.
    destruct (scan_of_game py_int t' _ _ R' M')
      as [q1 [q2 [s1 [s2 [Hs' [D1 D2]]]]]].
    pose proof R' as [_ [_ [B1 B2]]].
    assert (Hnew : holds t' cid PlayerTwo)
      by (apply Next.holds_written; reflexivity).
    destruct D2 as [[G2 [_ F2]]|[Ho _]];
      [|exfalso; apply Ho; now exists cid].
    assert (Q2 : q2 = cid) by exact (B2 q2 cid G2 Hnew).
    assert (Q1 : q1 = p1 /\ s1 = m1).
    { destruct C1 as [[H1 [Hn1 Ew]]|[Ho [Ep Em]]].
      - assert (K : holds t' p1 PlayerOne).
        { apply Next.holds_kept; auto. intros E. subst p1. contradiction. }
        destruct D1 as [[G1 [_ F1]]|[Ho _]];
          [|exfalso; apply Ho; now exists p1].
        split; [exact (B1 q1 p1 G1 K) | congruence].
      - destruct D1 as [[G1 _]|[_ [Eq Es]]]; [|subst; auto].
        exfalso. apply Registry.holds_upsert in G1.
        destruct G1 as [[_ G1]|G1]; [discriminate|].
        apply Ho. now exists q1. }
    destruct Q1 as [Q1 Q3]. unfold scan in Hs'. rewrite Hs'. congruence.
Qed.

End NextGame.

Section Leaving.

Variable py_int : string -> option Z.
Variable post_to_connection : post -> result unit.

Local Abbreviation handler := (lambda_handler py_int post_to_connection).

Lemma holds_after_delete (tbl : table) (k c : string) (r : role) :
  holds tbl c r -> c <> k -> holds (delete_item tbl k) c r.
Proof.
  intros [row [Hin [Hid Hr]]] Hk. exists row. split; auto.
  apply Table.in_delete. split; auto. congruence.
Qed.

Lemma handler_disconnect (tbl : table) (cid : string) (m : option string)
    av p1 p2 m1 m2 :
  scan_conns (delete_item tbl cid) = Ok (av, p1, p2, m1, m2) ->
  handler tbl (mkEvent "$disconnect" cid m)
  = finish post_to_connection (delete_item tbl cid)
      (Continue (delete_item tbl cid) (mkData av p1 p2 m1 m2 None)).
Proof.
  intros Hs.
  rewrite (handler_rest py_int post_to_connection tbl
             (mkEvent "$disconnect" cid m) eq_refl).
  cbn [route_key connection_id].
  change ("$disconnect" =? "$disconnect")%string with true. cbv iota zeta.
  unfold scan. rewrite Hs. reflexivity.
Qed.

(** X17: a player who leaves does not end the game.  In a table that
    holds a game, when player one disconnects, the snapshot that is
    broadcast, which is also what the scan of the new table gives, has
    player one's seat free and without moves, and player two with all its
    moves still in place; and the same with the two roles exchanged. *)
Theorem leaving_player_keeps_game (tbl : table) (cid : string)
    (m : option string)
    (av : list Z) (p1 p2 : string) (m1 m2 : list string) :
  game_inv py_int tbl ->
  scan_conns (scan tbl) = Ok (av, p1, p2, m1, m2) ->
  cid <> "" ->
  let r := handler tbl (mkEvent "$disconnect" cid m) in
  (cid = p1 ->
   scan_conns (scan (store r)) = Ok (avail_of "" p2, "", p2, [], m2)
   /\ forall p, In p (posts r) ->
        Data p = mkData (avail_of "" p2) "" p2 [] m2 None)
  /\ (cid = p2 ->
      scan_conns (scan (store r)) = Ok (avail_of p1 "", p1, "", m1, [])
      /\ forall p, In p (posts r) ->
           Data p = mkData (avail_of p1 "") p1 "" m1 [] None).
Proof.
  intros [Hreg [w1 [w2 Hm]]] Hs Hc r.
  destruct (scan_of_game py_int tbl w1 w2 Hreg Hm)
    as [q1 [q2 [s1 [s2 [Hs' [C1 C2]]]]]].
  rewrite Hs in Hs'. inversion Hs'. subst av q1 q2 s1 s2. clear Hs'.
  pose proof Hreg as [Hnd [_ [A1 A2]]].
  set (t' := delete_item tbl cid).
  assert (R' : registry_inv t') by now apply Registry.inv_delete.
  assert (M' : moves_ok py_int t' w1 w2) by now apply moves_ok_delete.
  destruct (scan_of_game py_int t' w1 w2 R' M')
    as [q1 [q2 [s1 [s2 [Hs' [D1 D2]]]]]].
  pose proof R' as [_ [_ [B1 B2]]].
  unfold scan in Hs'.
  assert (Er : r = finish post_to_connection t'
                 (Continue t' (mkData (avail_of q1 q2) q1 q2 s1 s2 None)))
    by exact (handler_disconnect tbl cid m _ _ _ _ _ Hs').
  assert (Fin : forall a b ms ns,
            q1 = a -> q2 = b -> s1 = ms -> s2 = ns ->
            scan_conns (scan (store r)) = Ok (avail_of a b, a, b, ms, ns)
            /\ forall p, In p (posts r) ->
                 Data p = mkData (avail_of a b) a b ms ns None).
  { intros a b ms ns Ea Eb Ems Ens. subst a b ms ns.
    rewrite Er, store_finish, (posts_finish post_to_connection).
    split; [exact Hs'|].
    intros p Hp. exact (broadcast_data post_to_connection _ _ _ Hp). }
  split; intros E; subst cid.
  - destruct C1 as [[H1 _]|[_ [E _]]]; [|congruence].
    assert (F1 : ~ occupied t' PlayerOne).
    { intros [c [row [Hin [Hid Hr]]]]. apply Table.in_delete in Hin.
      destruct Hin as [Hin K]. apply K. apply A1; [|exact H1].
      exists row. auto. }
    destruct D1 as [[G1 _]|[_ [Eq1 Es1]]];
      [exfalso; apply F1; now exists q1|].
    apply Fin; auto.
    + destruct C2 as [[H2 [Hn2 Ew]]|[Ho [Ep Em]]].
      * assert (K : holds t' p2 PlayerTwo).
        { apply holds_after_delete; auto. intros E. subst p2.
          exact (Next.one_seat tbl p1 Hnd H1 H2). }
        destruct D2 as [[G2 _]|[Ho _]]; [|exfalso; apply Ho; now exists p2].
        exact (B2 q2 p2 G2 K).
      * destruct D2 as [[G2 _]|[_ [Eq _]]]; [|congruence].
        exfalso. apply Ho. exists q2. exact (Registry.holds_delete _ _ _ _ G2).
    + destruct C2 as [[H2 [Hn2 Ew]]|[Ho [Ep Em]]].
      * assert (K : holds t' p2 PlayerTwo).
        { apply holds_after_delete; auto. intros E. subst p2.
          exact (Next.one_seat tbl p1 Hnd H1 H2). }
        destruct D2 as [[_ [_ F2]]|[Ho _]]; [congruence|].
        exfalso; apply Ho; now exists p2.
      * destruct D2 as [[G2 _]|[_ [_ Es]]]; [|congruence].
        exfalso. apply Ho. exists q2. exact (Registry.holds_delete _ _ _ _ G2).
  - destruct C2 as [[H2 _]|[_ [E _]]]; [|congruence].
    assert (F2 : ~ occupied t' PlayerTwo).
    { intros [c [row [Hin [Hid Hr]]]]. apply Table.in_delete in Hin.
      destruct Hin as [Hin K]. apply K. apply A2; [|exact H2].
      exists row. auto. }
    destruct D2 as [[G2 _]|[_ [Eq2 Es2]]];
      [exfalso; apply F2; now exists q2|].
    apply Fin; auto.
    + destruct C1 as [[H1 [Hn1 Ew]]|[Ho [Ep Em]]].
      * assert (K : holds t' p1 PlayerOne).
        { apply holds_after_delete; auto. intros E. subst p1.
          exact (Next.one_seat tbl p2 Hnd H1 H2). }
        destruct D1 as [[G1 _]|[Ho _]]; [|exfalso; apply Ho; now exists p1].
        exact (B1 q1 p1 G1 K).
      * destruct D1 as [[G1 _]|[_ [Eq _]]]; [|congruence].
        exfalso. apply Ho. exists q1. exact (Registry.holds_delete _ _ _ _ G1).
    + destruct C1 as [[H1 [Hn1 Ew]]|[Ho [Ep Em]]].
      * assert (K : holds t' p1 PlayerOne).
        { apply holds_after_delete; auto. intros E. subst p1.
          exact (Next.one_seat tbl p2 Hnd H1 H2). }
        destruct D1 as [[_ [_ F1]]|[Ho _]]; [congruence|].
        exfalso; apply Ho; now exists p1.
      * destruct D1 as [[G1 _]|[_ [_ Es]]]; [|congruence].
        exfalso. apply Ho. exists q1. exact (Registry.holds_delete _ _ _ _ G1).
Qed.

End Leaving.

(** ** Worked examples *)

Lemma digits_no_char (c : ascii) :
  digit_value c = None ->
  forall s acc n, digits_value acc s = Some n -> no_char c s = true.
Proof.
  intros Hc. induction s as [|a s IH]; simpl; intros acc n H; auto.
  destruct (digit_value a) as [v|] eqn:Ea; [|discriminate].
  destruct (Ascii.eqb_spec a c) as [E|E]; [congruence|].
  simpl. exact (IH _ _ H).
Qed.

Lemma int_of_digits_clean (s : string) (n : Z) :
  int_of_digits s = Some n -> clean s = true.
Proof.
  unfold int_of_digits, clean. destruct s as [|a s]; [discriminate|].
  intros H.
  rewrite (digits_no_char "," eq_refl _ _ _ H).
  rewrite (digits_no_char ";" eq_refl _ _ _ H). reflexivity.
Qed.

Lemma opening_ids : Forall (fun ev => connection_id ev <> "") opening.
Proof.
  unfold opening. repeat (apply Forall_cons; [discriminate|]).
  apply Forall_nil.
Qed.

Lemma mid_game_inv : game_inv int_of_digits mid_game.
Proof.
  exact (run_events_game_inv int_of_digits delivers int_of_digits_clean
           [] opening (game_inv_empty int_of_digits) opening_ids).
Qed.

Lemma lobby_inv : game_inv int_of_digits lobby.
Proof.
  refine (run_events_game_inv int_of_digits delivers int_of_digits_clean
            [] [Connect "A"; Connect "B"] (game_inv_empty int_of_digits) _).
  repeat (apply Forall_cons; [discriminate|]). apply Forall_nil.
Qed.

Lemma bystanders_untouched_witness :
  "C" <> "A"
  /\ ~ holds watched_game "C" PlayerOne
  /\ ~ holds watched_game "C" PlayerTwo
  /\ get_item (store (handle watched_game (MakePlay "A" "2"))) "C" = Some "2".
Proof.
  assert (N : forall r, r <> Spectator -> ~ holds watched_game "C" r).
  { intros r Hr [row [Hin [Hid Hrole]]]. simpl in Hin.
    destruct Hin as [E|[E|[E|[]]]]; subst row; simpl in *;
      try discriminate; congruence. }
  assert (H1 : ~ holds watched_game "C" PlayerOne) by (apply N; discriminate).
  assert (H2 : ~ holds watched_game "C" PlayerTwo) by (apply N; discriminate).
  assert (Hk : "C" <> "A") by discriminate.
  repeat (split; [assumption|]).
  exact (bystanders_untouched int_of_digits delivers watched_game
           (MakePlay "A" "2") "C" Hk ltac:(discriminate) H1 H2).
Defined.

Lemma unreadable_row_stops_handler_witness :
  unreadable (mkConn "A" "0") = true
  /\ handle torn_table (JoinGame "B") = mkRun torn_table [] (Raise IndexError).
Proof.
  split; [reflexivity|].
  exact (unreadable_row_stops_handler int_of_digits delivers torn_table
           (JoinGame "B") (mkConn "A" "0")
           ltac:(discriminate) (or_introl eq_refl) eq_refl
           ltac:(discriminate)).
Defined.

Lemma missing_message_witness :
  scan_conns (scan mid_game) = Ok ([2], "A", "B", ["0"; "1"], ["3"; "4"])
  /\ handle mid_game (mkEvent "makePlay" "A" None)
     = mkRun mid_game [] (Raise NameError).
Proof.
  split; [reflexivity|].
  exact (proj1 (missing_message int_of_digits delivers mid_game "A"
                  [2] "A" "B" ["0"; "1"] ["3"; "4"] eq_refl)
           (or_introl eq_refl)).
Defined.

Lemma unparsable_move_not_written_witness :
  int_of_digits "x" = None
  /\ handle mid_game (MakePlay "A" "x") = mkRun mid_game [] (Raise ValueError).
Proof.
  split; [reflexivity|].
  exact (unparsable_move_not_written int_of_digits delivers mid_game "A" "x"
           [2] "A" "B" ["0"; "1"] ["3"; "4"]
           eq_refl (or_introl eq_refl) eq_refl eq_refl eq_refl).
Defined.

Lemma send_message_relayed_witness :
  scan_conns (scan lobby) = Ok ([0; 1; 2], "", "", [], [])
  /\ handle lobby (SendMessage "Z" "hi")
     = mkRun lobby
         [mkPost "A" (mkData [0; 1; 2] "" "" [] [] (Some ("Z", "hi")));
          mkPost "B" (mkData [0; 1; 2] "" "" [] [] (Some ("Z", "hi")))]
         (Ok success).
Proof.
  split; [reflexivity|].
  exact (send_message_relayed int_of_digits delivers lobby "Z" "hi"
           [0; 1; 2] "" "" [] [] eq_refl (fun _ _ => eq_refl)).
Defined.

Lemma responses_are_200_witness :
  outcome (handle mid_game (MakePlay "C" "1")) = Ok ineligible
  /\ statusCode ineligible = 200.
Proof.
  split; [reflexivity|].
  exact (proj1 (responses_are_200 int_of_digits delivers mid_game
                  (MakePlay "C" "1") ineligible eq_refl)).
Defined.

Lemma moves_never_repeat_witness :
  Forall (fun ev => connection_id ev <> "") opening
  /\ exists av p1 p2 m1 m2,
       scan_conns (scan (handle_all [] opening)) = Ok (av, p1, p2, m1, m2)
       /\ NoDup (m1 ++ m2)
       /\ Forall (fun m => clean m = true /\ int_of_digits m <> None)
            (m1 ++ m2).
Proof.
  split; [exact opening_ids|].
  exact (moves_never_repeat int_of_digits delivers int_of_digits_clean
           opening opening_ids).
Defined.

Lemma played_move_is_scanned_witness :
  game_inv int_of_digits mid_game
  /\ scan_conns (scan (store (handle mid_game (MakePlay "A" "5"))))
     = Ok ([2], "A", "B", ["0"; "1"; "5"], ["3"; "4"]).
Proof.
  split; [exact mid_game_inv|].
  exact (played_move_is_scanned int_of_digits delivers mid_game "A" "5"
           [2] "A" "B" ["0"; "1"] ["3"; "4"]
           (mkData [2] "A" "B" ["0"; "1"; "5"] ["3"; "4"] None)
           "0;0,1,5" ["0"; "1"; "5"] [0; 1; 5]
           mid_game_inv eq_refl ltac:(discriminate) eq_refl
           (or_introl eq_refl) eq_refl eq_refl eq_refl eq_refl eq_refl).
Defined.

Lemma finished_game_is_cleared_witness :
  registry_inv mid_game
  /\ scan_conns (scan (store (handle mid_game (MakePlay "A" "2"))))
     = Ok ([0; 1; 2], "", "", [], []).
Proof.
  split; [exact (proj1 mid_game_inv)|].
  exact (finished_game_is_cleared int_of_digits delivers mid_game "A" "2"
           [2] "A" "B" ["0"; "1"] ["3"; "4"]
           (mkData [2] "A" "B" ["0"; "1"; "2"] ["3"; "4"] None)
           "0;0,1,2" ["0"; "1"; "2"] [0; 1; 2]
           (proj1 mid_game_inv) eq_refl (or_introl eq_refl)
           eq_refl eq_refl eq_refl eq_refl ltac:(vm_compute; discriminate)).
Defined.

Lemma rejoin_snapshot_names_caller_twice_witness :
  scan_conns (scan lone_player) = Ok ([1; 2], "A", "", ["0"; "1"], [])
  /\ forall p, In p (posts (handle lone_player (JoinGame "A"))) ->
       Data p = mkData [2] "A" "A" ["0"; "1"] [] None.
Proof.
  split; [reflexivity|].
  exact (proj2 (proj1 (rejoin_snapshot_names_caller_twice int_of_digits
                         delivers lone_player "A" [1; 2] ["0"; "1"] []
                         ltac:(discriminate)) eq_refl)).
Defined.

Lemma joined_seat_is_scanned_witness :
  game_inv int_of_digits lobby
  /\ scan_conns (scan (store (handle lobby (JoinGame "B"))))
     = Ok ([1; 2], "B", "", [], []).
Proof.
  split; [exact lobby_inv|].
  assert (N : forall r, r <> Spectator -> ~ holds lobby "B" r).
  { intros r Hr [row [Hin [Hid Hrole]]]. simpl in Hin.
    destruct Hin as [E|[E|[]]]; subst row; simpl in *;
      try discriminate; congruence. }
  exact (proj1 (proj1 (joined_seat_is_scanned int_of_digits delivers lobby "B"
                         [0; 1; 2] "" "" [] [] lobby_inv ltac:(discriminate)
                         (N PlayerOne ltac:(discriminate))
                         (N PlayerTwo ltac:(discriminate)) eq_refl)
                  eq_refl)).
Defined.

Lemma leaving_player_keeps_game_witness :
  game_inv int_of_digits mid_game
  /\ scan_conns (scan (store (handle mid_game (Disconnect "A"))))
     = Ok ([0; 2], "", "B", [], ["3"; "4"]).
Proof.
  split; [exact mid_game_inv|].
  exact (proj1 (proj1 (leaving_player_keeps_game int_of_digits delivers
                         mid_game "A" None [2] "A" "B" ["0"; "1"] ["3"; "4"]
                         mid_game_inv eq_refl ltac:(discriminate))
                  eq_refl)).
Defined.
